(** * geatpy [Population]: a shallow embedding and its properties

    The class [Population] of [geatpy/Population.py] stores a batch of
    individuals as row-aligned numpy matrices.  This development embeds the
    class method by method and states the properties of its data model.

    Conventions of the embedding.
    - A two-dimensional numpy array is a [matrix]: its column count
      ([shape[1]]) and the list of its rows.  The cells are an abstract type
      [elem]; the class only moves cells around, it never computes on them.
    - An attribute that may hold [None] is an [option].
    - A Python exception is a value of [exn]; a method that returns a fresh
      object is a function into [result]; a method that mutates [self] in
      place is a function in the monad [mut], which threads the state of
      [self] and keeps the state reached when an exception escapes.
    - Every array stored by the class is a fresh copy ([.copy()], fancy
      indexing, [np.vstack], [np.ones]), so no two attributes share storage
      and arrays are modelled by their values; [copy_array] marks the copies.
    - Cells are stored as they are: conversions between numeric dtypes on
      assignment are outside the embedding.  What numpy does with [None]
      where it expects an array is part of it ([as_value], [atleast_2d]).
    - The collaborators [ea.crtpc], [ea.bs2ri], the comparison of two [Field]
      descriptors and the numbers drawn by [np.random.rand] are parameters.
    - [Population.save] only writes files and is not embedded. *)

From Stdlib Require Import QArith.
From stdpp Require Import base numbers option strings sorting list.
Close Scope Q_scope.

(** ** Exceptions and results *)

(** The messages of the [RuntimeError]s raised by the class itself. *)
Inductive message :=
  | Size_error                 (* 'error in Population: Size error.' *)
  | Encoding_disagree          (* 'error in Population: Encoding disagree.' *)
  | Field_disagree             (* 'error in Population: Field disagree.' *)
  | Sizes_disagree             (* 'error in Population: Sizes disagree.' *)
  | Chrom_is_None              (* 'error in Population: Chrom is None.' *)
  | CV_disagree                (* 'error in Population: CV disagree.' *)
  | Encoding_must_be_BG_RI_P.  (* 'error in Population.decoding: ...' *)

(** [RuntimeError] comes from a [raise] of the class; the other exceptions
    come from Python or numpy when an attribute is [None] or an array
    operation is ill-shaped. *)
Inductive exn :=
  | RuntimeError (msg : message)
  | TypeError        (* subscripting or assigning into [None] *)
  | AttributeError   (* [None.copy()] *)
  | IndexError       (* a row index out of bounds *)
  | ValueError.      (* shapes that cannot be stacked or broadcast *)

Inductive result (A : Type) :=
  | Return (a : A)
  | Raise (e : exn).
Arguments Return {A} a.
Arguments Raise {A} e.

#[global] Instance result_ret : MRet result := @Return.
#[global] Instance result_bind : MBind result := λ A B f m,
  match m with
  | Return a => f a
  | Raise e => Raise e
  end.
#[global] Instance result_fmap : FMap result := λ A B f m,
  match m with
  | Return a => Return (f a)
  | Raise e => Raise e
  end.

#[global] Instance message_eq_dec : EqDecision message.
Proof. solve_decision. Defined.
#[global] Instance exn_eq_dec : EqDecision exn.
Proof. solve_decision. Defined.

(** ** numpy arrays *)

Section Numpy.
Context {elem : Type}.

(** The value of a cell of [np.ones]. *)
Variable one : elem.
(** The cell of the one-by-one object array [np.atleast_2d(None)]. *)
Variable py_none : elem.
(** What an array stores in a cell when [None] is assigned into it: a value
    for a floating or object dtype, [None] here when the dtype refuses it
    (numpy then raises [TypeError]). *)
Variable cast_none : option elem.

Record matrix := Matrix {
  ncols : nat;                 (* shape[1] *)
  rows  : list (list elem)     (* the shape[0] rows *)
}.

Definition nrows (m : matrix) : nat := length (rows m).

(** [m.copy()] *)
Definition copy_array (m : matrix) : matrix := m.

(** [np.ones((n, c))].  Integers are unbounded here: the failure of numpy
    to allocate an array beyond the machine's address space is outside the
    embedding, and no statement below rests on an allocation of unbounded
    size succeeding. *)
Definition np_ones (n : Z) (c : nat) : result matrix :=
  if decide (n < 0)%Z then Raise ValueError
  else Return (Matrix c (replicate (Z.to_nat n) (replicate c one))).

(** A row index as numpy reads it on an axis of length [n]: [0 .. n-1]
    counts from the first row, [-n .. -1] from the last. *)
Definition py_index (n : nat) (i : Z) : result nat :=
  if decide (0 ≤ i < Z.of_nat n)%Z then Return (Z.to_nat i)
  else if decide (- Z.of_nat n ≤ i < 0)%Z then Return (Z.to_nat (i + Z.of_nat n))
  else Raise IndexError.

Definition row_of (m : matrix) (i : Z) : result (list elem) :=
  k ← py_index (nrows m) i;
  match rows m !! k with
  | Some r => Return r
  | None => Raise IndexError
  end.

(** [m[index]] for a one-dimensional integer array [index]: the rows
    gathered in the order of [index]. *)
Definition fancy_get (m : matrix) (index : list Z) : result matrix :=
  rs ← mapM (row_of m) index;
  Return (Matrix (ncols m) rs).

(** [None[index]] is a [TypeError]. *)
Definition subscript (a : option matrix) (index : list Z) : result matrix :=
  match a with
  | Some m => fancy_get m index
  | None => Raise TypeError
  end.

(** Broadcasting of one axis of a value to a length [n]: the axis has that
    length already, or it has length one and is repeated. *)
Definition broadcast_axis (n : nat) (l : list (list elem))
  : result (list (list elem)) :=
  if decide (length l = n) then Return l
  else match l with
       | [x] => Return (replicate n x)
       | _ => Raise ValueError
       end.

(** A row of one cell repeated to [c] cells. *)
Definition broadcast_row (c : nat) (r : list elem) : list elem :=
  match r with
  | [x] => replicate c x
  | _ => r
  end.

(** The value [v] broadcast to [k] rows of [c] cells. *)
Definition broadcast (k c : nat) (v : matrix) : result (list (list elem)) :=
  rs ← broadcast_axis k (rows v);
  if decide (ncols v = c) then Return rs
  else if decide (ncols v = 1) then Return (map (broadcast_row c) rs)
  else Raise ValueError.

(** The right-hand side of an assignment as an array: a matrix is itself,
    [None] is a single cell if the dtype can hold it. *)
Definition as_value (v : option matrix) : result matrix :=
  match v with
  | Some x => Return x
  | None =>
      match cast_none with
      | Some c => Return (Matrix 1 [[c]])
      | None => Raise TypeError
      end
  end.

(** One row written in place: row [kr.1] becomes [kr.2]. *)
Definition write_row (acc : list (list elem)) (kr : nat * list elem)
  : list (list elem) :=
  <[kr.1 := kr.2]> acc.

(** [m[index] = v]: the value is converted and broadcast, the indices are
    checked, and only then the rows are written, in the order of [index]
    (of a repeated index the last write stays). *)
Definition fancy_set (m : matrix) (index : list Z) (v : option matrix)
  : result matrix :=
  x ← as_value v;
  rs ← broadcast (length index) (ncols m) x;
  ks ← mapM (py_index (nrows m)) index;
  Return (Matrix (ncols m) (foldl write_row (rows m) (zip ks rs))).

(** [a[index] = v] where [a] may be [None]: the array after the write. *)
Definition assign (a : option matrix) (index : list Z) (v : option matrix)
  : result matrix :=
  match a with
  | Some m => fancy_set m index v
  | None => Raise TypeError
  end.

(** [np.atleast_2d(a)] *)
Definition atleast_2d (a : option matrix) : matrix :=
  match a with
  | Some m => m
  | None => Matrix 1 [[py_none]]
  end.

(** [np.vstack([a, b])] *)
Definition np_vstack (a b : option matrix) : result matrix :=
  let x := atleast_2d a in
  let y := atleast_2d b in
  if decide (ncols x = ncols y) then Return (Matrix (ncols x) (rows x ++ rows y))
  else Raise ValueError.

End Numpy.

Arguments matrix : clear implicits.
Arguments Matrix {elem} ncols rows.

(** [np.argsort(u)]: the positions of [u] in increasing order of their
    entries.  The relative order of the positions of equal entries is that
    of the merge sort used here; numpy's default sort does not fix it, and
    the statements below hold for any order of ties. *)
Definition key_le (x y : Q * nat) : Prop := Qle_bool x.1 y.1 = true.
#[global] Instance key_le_dec : RelDecision key_le.
Proof. intros x y. unfold key_le. apply _. Defined.
Definition np_argsort (u : list Q) : list nat :=
  (merge_sort key_le (zip u (seq 0 (length u)))).*2.

(** ** The class [Population] *)

Section Population.
Context {elem field : Type}.

Variable one : elem.
Variable py_none : elem.
Variable cast_none : option elem.

(** [np.all(F1 == F2)] on two decode-field descriptors (or [None]). *)
Variable Field_agree : option field → option field → bool.
(** [ea.crtpc(Encoding, NIND, Field)], the chromosome generator. *)
Variable crtpc : option string → Z → option field → result (matrix elem).
(** [ea.bs2ri(Chrom, Field)], the codec of the bit-string encoding. *)
Variable bs2ri : option (matrix elem) → option field → result (matrix elem).
(** The numbers that [np.random.rand] delivers, in order. *)
Variable rng : nat → Q.

(** The attributes of an object of the class.  [__init__] always stores an
    array in [FitnV]; the other arrays may be [None]. *)
Record Population := mkPopulation {
  sizes    : Z;
  Encoding : option string;
  Field    : option field;
  Chrom    : option (matrix elem);
  Lind     : nat;
  ObjV     : option (matrix elem);
  FitnV    : matrix elem;
  CV       : option (matrix elem);
  Phen     : option (matrix elem)
}.

Definition set_sizes (v : Z) (p : Population) : Population :=
  mkPopulation v (Encoding p) (Field p) (Chrom p) (Lind p) (ObjV p) (FitnV p) (CV p) (Phen p).
Definition set_Chrom (v : option (matrix elem)) (p : Population) : Population :=
  mkPopulation (sizes p) (Encoding p) (Field p) v (Lind p) (ObjV p) (FitnV p) (CV p) (Phen p).
Definition set_Lind (v : nat) (p : Population) : Population :=
  mkPopulation (sizes p) (Encoding p) (Field p) (Chrom p) v (ObjV p) (FitnV p) (CV p) (Phen p).
Definition set_ObjV (v : option (matrix elem)) (p : Population) : Population :=
  mkPopulation (sizes p) (Encoding p) (Field p) (Chrom p) (Lind p) v (FitnV p) (CV p) (Phen p).
Definition set_FitnV (v : matrix elem) (p : Population) : Population :=
  mkPopulation (sizes p) (Encoding p) (Field p) (Chrom p) (Lind p) (ObjV p) v (CV p) (Phen p).
Definition set_CV (v : option (matrix elem)) (p : Population) : Population :=
  mkPopulation (sizes p) (Encoding p) (Field p) (Chrom p) (Lind p) (ObjV p) (FitnV p) v (Phen p).
Definition set_Phen (v : option (matrix elem)) (p : Population) : Population :=
  mkPopulation (sizes p) (Encoding p) (Field p) (Chrom p) (Lind p) (ObjV p) (FitnV p) (CV p) v.

(** *** Methods that return a fresh object *)

(** [raise RuntimeError(msg)] when the condition holds. *)
Definition raise_if (c : bool) (msg : message) : result unit :=
  if c then Raise (RuntimeError msg) else Return tt.

(** [Population.__init__].  [NIND] is a Python [int]; values of another
    type are not part of the embedding. *)
Definition __init__ (Encoding : option string) (Field : option field) (NIND : Z)
    (Chrom ObjV FitnV CV Phen : option (matrix elem)) : result Population :=
  raise_if (negb (bool_decide (0 ≤ NIND)%Z)) Size_error;;
  let sizes := NIND in
  fc ← match Encoding with
       | None => Return (None, None)
       | Some _ =>
           match Field with
           | None => Raise AttributeError
           | Some f => Return (Some f, copy_array <$> Chrom)
           end
       end;
  let Lind := match Chrom with Some c => ncols c | None => 0 end in
  let ObjV := copy_array <$> ObjV in
  FitnV ← match FitnV with
          | Some f => Return (copy_array f)
          | None => np_ones one sizes 1
          end;
  let CV := copy_array <$> CV in
  let Phen := copy_array <$> Phen in
  Return (mkPopulation sizes Encoding fc.1 fc.2 Lind ObjV FitnV CV Phen).

(** [Population.decoding] *)
Definition decoding (self : Population) : result (matrix elem) :=
  if decide (Encoding self = Some "BG") then
    bs2ri (Chrom self) (Field self)
  else if decide (Encoding self = Some "RI" ∨ Encoding self = Some "P") then
    match Chrom self with
    | Some c => Return (copy_array c)
    | None => Raise AttributeError
    end
  else Raise (RuntimeError Encoding_must_be_BG_RI_P).

(** [Population.copy] *)
Definition copy (self : Population) : result Population :=
  __init__ (Encoding self) (Field self) (sizes self) (Chrom self)
           (ObjV self) (Some (FitnV self)) (CV self) (Phen self).

(** [a[index] if a is not None else a] *)
Definition subscript_if_present (a : option (matrix elem)) (index : list Z)
  : result (option (matrix elem)) :=
  match a with
  | Some m => Some <$> fancy_get m index
  | None => Return None
  end.

(** [Population.__getitem__] *)
Definition __getitem__ (self : Population) (index : list Z) : result Population :=
  NewChrom ← match Encoding self with
             | None => Return None
             | Some _ =>
                 raise_if (bool_decide (Chrom self = None)) Chrom_is_None;;
                 Some <$> subscript (Chrom self) index
             end;
  NewFitnV ← fancy_get (FitnV self) index;
  let NIND := Z.of_nat (nrows NewFitnV) in
  NewObjV ← subscript_if_present (ObjV self) index;
  NewCV ← subscript_if_present (CV self) index;
  NewPhen ← subscript (Phen self) index;
  __init__ (Encoding self) (Field self) NIND NewChrom NewObjV (Some NewFitnV)
           NewCV (Some NewPhen).

(** [Population.__add__] *)
Definition __add__ (self pop : Population) : result Population :=
  NewChrom ← match Encoding self with
             | None => Return None
             | Some _ =>
                 raise_if (bool_decide (Encoding self ≠ Encoding pop)) Encoding_disagree;;
                 raise_if (negb (Field_agree (Field self) (Field pop))) Field_disagree;;
                 raise_if (bool_decide (Chrom self = None ∨ Chrom pop = None)) Chrom_is_None;;
                 raise_if (xorb (bool_decide (CV self = None))
                                (bool_decide (CV pop = None))) CV_disagree;;
                 Some <$> np_vstack py_none (Chrom self) (Chrom pop)
             end;
  let NIND := (sizes self + sizes pop)%Z in
  NewObjV ← np_vstack py_none (ObjV self) (ObjV pop);
  NewFitnV ← np_vstack py_none (Some (FitnV self)) (Some (FitnV pop));
  NewCV ← match CV self with
          | Some _ => Some <$> np_vstack py_none (CV self) (CV pop)
          | None => Return None
          end;
  NewPhen ← np_vstack py_none (Phen self) (Phen pop);
  __init__ (Encoding self) (Field self) NIND NewChrom (Some NewObjV)
           (Some NewFitnV) NewCV (Some NewPhen).

(** [Population.__len__] *)
Definition __len__ (self : Population) : Z := sizes self.

(** *** Methods that mutate [self] in place *)

(** A computation on the attributes of [self]: the state it leaves, and
    the value it returns or the exception it raises.  An exception stops
    the computation; what was written before it stays written. *)
Definition mut (A : Type) : Type := Population → Population * result A.

#[global] Instance mut_ret : MRet mut := λ A a s, (s, Return a).
#[global] Instance mut_bind : MBind mut := λ A B f m s,
  match m s with
  | (s', Return a) => f a s'
  | (s', Raise e) => (s', Raise e)
  end.

(** The current attributes of [self]. *)
Definition get : mut Population := λ s, (s, Return s).
(** [self.attr = v] through one of the setters above. *)
Definition store (f : Population → Population) : mut unit := λ s, (f s, Return tt).
(** An expression that may raise. *)
Definition lift {A} (r : result A) : mut A := λ s, (s, r).

(** [np.random.rand(n)] *)
Definition np_random_rand (n : Z) : result (list Q) :=
  if decide (n < 0)%Z then Raise ValueError
  else Return (rng <$> seq 0 (Z.to_nat n)).

(** [Population.initChrom] *)
Definition initChrom (NIND : option Z) : mut unit :=
  match NIND with
  | Some n => store (set_sizes n)
  | None => mret tt
  end;;
  self ← get;
  c ← lift (crtpc (Encoding self) (sizes self) (Field self));
  store (set_Chrom (Some c));;
  store (set_Lind (ncols c));;
  store (set_ObjV None);;
  f ← lift (np_ones one (sizes self) 1);
  store (set_FitnV f);;
  store (set_CV None);;
  self ← get;
  p ← lift (decoding self);
  store (set_Phen (Some p)).

(** [Population.shuffle] *)
Definition shuffle : mut unit :=
  self ← get;
  u ← lift (np_random_rand (sizes self));
  let shuff := Z.of_nat <$> np_argsort u in
  match Encoding self with
  | None => store (set_Chrom None)
  | Some _ =>
      lift (raise_if (bool_decide (Chrom self = None)) Chrom_is_None);;
      c ← lift (subscript (Chrom self) shuff);
      store (set_Chrom (Some c))
  end;;
  o ← lift (subscript_if_present (ObjV self) shuff);
  store (set_ObjV o);;
  f ← lift (fancy_get (FitnV self) shuff);
  store (set_FitnV f);;
  c ← lift (subscript_if_present (CV self) shuff);
  store (set_CV c);;
  p ← lift (subscript (Phen self) shuff);
  store (set_Phen (Some p)).

(** [Population.__setitem__] *)
Definition __setitem__ (index : list Z) (pop : Population) : mut unit :=
  self ← get;
  match Encoding self with
  | Some _ =>
      lift (raise_if (bool_decide (Encoding self ≠ Encoding pop)) Encoding_disagree);;
      lift (raise_if (negb (Field_agree (Field self) (Field pop))) Field_disagree);;
      lift (raise_if (bool_decide (Z.of_nat (length index) ≠ sizes pop)) Sizes_disagree);;
      lift (raise_if (bool_decide (Chrom self = None)) Chrom_is_None);;
      lift (raise_if (xorb (bool_decide (CV self = None))
                           (bool_decide (CV pop = None))) CV_disagree);;
      c ← lift (assign cast_none (Chrom self) index (Chrom pop));
      store (set_Chrom (Some c))
  | None => mret tt
  end;;
  o ← lift (assign cast_none (ObjV self) index (ObjV pop));
  store (set_ObjV (Some o));;
  f ← lift (fancy_set cast_none (FitnV self) index (Some (FitnV pop)));
  store (set_FitnV f);;
  match CV self with
  | Some _ =>
      c ← lift (assign cast_none (CV self) index (CV pop));
      store (set_CV (Some c))
  | None => mret tt
  end;;
  p ← lift (assign cast_none (Phen self) index (Phen pop));
  store (set_Phen (Some p));;
  store (set_sizes (Z.of_nat (nrows p))).

End Population.

Arguments Population : clear implicits.
Arguments mkPopulation {elem field}.

(** ** The data model of the class *)

Section DataModel.
Context {elem field : Type}.
Implicit Types (p : Population elem field) (a b : option (matrix elem)).

(** The five per-individual attribute matrices of a population, in the
    order Chrom, ObjV, FitnV, CV, Phen. *)
Definition attributes p : list (option (matrix elem)) :=
  [Chrom p; ObjV p; Some (FitnV p); CV p; Phen p].

(** Row [i] of an attribute, if the attribute is present and has one. *)
Definition row_at a (i : nat) : option (list elem) :=
  m ← a; rows m !! i.

(** The rows of an attribute; none when it is absent. *)
Definition rows_of a : list (list elem) := from_option rows [] a.

(** A present attribute has [n] rows. *)
Definition has_rows (n : Z) a : Prop :=
  match a with
  | Some m => Z.of_nat (nrows m) = n
  | None => True
  end.

#[global] Instance has_rows_dec n a : Decision (has_rows n a).
Proof. destruct a; simpl; apply _. Defined.

(** Every present attribute matrix has [sizes] rows. *)
Definition row_aligned p : Prop := Forall (has_rows (sizes p)) (attributes p).

#[global] Instance row_aligned_dec p : Decision (row_aligned p).
Proof. unfold row_aligned. apply _. Defined.

(** The scheme and the attributes tied to it: without an encoding there is
    neither a decode field nor a genotype; with one there is a decode
    field. *)
Definition scheme_consistent p : Prop :=
  match Encoding p with
  | None => Field p = None ∧ Chrom p = None
  | Some _ => Field p ≠ None
  end.

(** A population whose genotype has been populated if it has an encoding. *)
Definition initialized p : Prop :=
  scheme_consistent p ∧ (Encoding p ≠ None → Chrom p ≠ None).

(** [written_from index a b a']: where the attribute [a] of [self] and the
    attribute [b] of the source are present and [b] has one row for each
    entry of [index] and the columns of [a], the row of [a'] listed at
    position [i] of [index] (and not listed again later) is row [i] of
    [b]. *)
Definition written_from (index : list Z) a b a' : Prop :=
  ∀ x y, a = Some y → b = Some x →
         nrows x = length index → ncols x = ncols y →
         ∀ i z, index !! i = Some z →
                (∀ j, i < j → index !! j ≠ Some z) →
                row_at a' (Z.to_nat z) = row_at b i.

(** Corresponding attributes of two populations have the same number of
    columns where both are present. *)
Definition same_columns a b : Prop :=
  match a, b with
  | Some x, Some y => ncols x = ncols y
  | _, _ => True
  end.

End DataModel.

(** ** The outcomes of the public operations *)

Section Outcomes.
Context {elem field : Type}.
Variables (one py_none : elem) (cast_none : option elem).
Variable Field_agree : option field → option field → bool.
Variable crtpc : option string → Z → option field → result (matrix elem).
Variable bs2ri : option (matrix elem) → option field → result (matrix elem).
Variable rng : nat → Q.

(** The chromosome generator returns as many rows as it is asked for. *)
Definition generator_contract : Prop :=
  ∀ e n f m, crtpc e n f = Return m → Z.of_nat (nrows m) = n.

(** The codec returns one row for each row of the genotype. *)
Definition codec_contract : Prop :=
  ∀ c f m, bs2ri (Some c) f = Return m → nrows m = nrows c.

(** [produced q]: the population [q] is what a public operation of the
    class completed with.  Construction is given matrices of [NIND] rows;
    indexed assignment and merge are applied to row-aligned populations, and
    merge moreover to populations that both carry objective values and a
    phenotype, and a constraint-violation matrix on the right whenever there
    is one on the left. *)
Inductive produced : Population elem field → Prop :=
  | produced_init Encoding Field NIND Chrom ObjV FitnV CV Phen q :
      Forall (has_rows NIND) [Chrom; ObjV; FitnV; CV; Phen] →
      __init__ one Encoding Field NIND Chrom ObjV FitnV CV Phen = Return q →
      produced q
  | produced_initChrom p NIND q :
      initChrom one crtpc bs2ri NIND p = (q, Return tt) →
      produced q
  | produced_getitem p index q :
      __getitem__ one p index = Return q →
      produced q
  | produced_setitem p index pop q :
      row_aligned p →
      __setitem__ cast_none Field_agree index pop p = (q, Return tt) →
      produced q
  | produced_add p1 p2 q :
      row_aligned p1 → row_aligned p2 →
      ObjV p1 ≠ None → ObjV p2 ≠ None →
      Phen p1 ≠ None → Phen p2 ≠ None →
      (CV p1 ≠ None → CV p2 ≠ None) →
      __add__ one py_none Field_agree p1 p2 = Return q →
      produced q
  | produced_shuffle p q :
      shuffle rng p = (q, Return tt) →
      produced q.

End Outcomes.

(** ** A concrete instance

    Cells are integers, NaN or the object [None]; a decode field is a list of
    integers compared for equality; the generator returns zeros and the codec
    its argument.  The populations below serve as test inputs. *)

Module Demo.

Inductive cell := Num (z : Z) | NaN | NoneObj.

Definition field : Type := list Z.

Definition mat (c : nat) (l : list (list Z)) : matrix cell :=
  Matrix c (map (map Num) l).

Definition one : cell := Num 1.
Definition py_none : cell := NoneObj.
Definition cast_none : option cell := Some NaN.

(** The comparison of two decode fields, [np.all(F1 == F2)], at descriptors
    of one shape, where it is equality. *)
Definition Field_agree (a b : option field) : bool := bool_decide (a = b).

Definition crtpc (e : option string) (n : Z) (f : option field)
  : result (matrix cell) :=
  np_ones (Num 0) n 2.

Definition bs2ri (c : option (matrix cell)) (f : option field)
  : result (matrix cell) :=
  match c with
  | Some m => Return m
  | None => Raise AttributeError
  end.

Definition rng (n : nat) : Q :=
  match n with
  | 0 => (1 # 2)%Q
  | 1 => (1 # 3)%Q
  | 2 => (3 # 4)%Q
  | _ => 0%Q
  end.

Definition F : field := [0; 1]%Z.

Definition mk := @mkPopulation cell field.

Definition ones (n : nat) : matrix cell := Matrix 1 (replicate n [Num 1]).
Definition chrom3 : matrix cell := mat 2 [[1; 2]; [3; 4]; [5; 6]]%Z.
Definition chrom2 : matrix cell := mat 2 [[7; 8]; [9; 10]]%Z.
Definition chrom1 : matrix cell := mat 2 [[11; 12]]%Z.
Definition objv3 : matrix cell := mat 1 [[10]; [20]; [30]]%Z.
Definition objv2 : matrix cell := mat 1 [[40]; [50]]%Z.
Definition objv1 : matrix cell := mat 1 [[60]]%Z.

(** [Population('RI', F, 3, chrom3, objv3, Phen = chrom3)] and a second
    one of two individuals. *)
Definition popA : Population cell field :=
  mk 3 (Some "RI") (Some F) (Some chrom3) 2 (Some objv3) (ones 3) None (Some chrom3).
Definition popB : Population cell field :=
  mk 2 (Some "RI") (Some F) (Some chrom2) 2 (Some objv2) (ones 2) None (Some chrom2).

(** [Population('RI', F, 2, chrom2)] and [Population('RI', F, 1, chrom1)]:
    a genotype, no objective values and no phenotype yet. *)
Definition fresh2 : Population cell field :=
  mk 2 (Some "RI") (Some F) (Some chrom2) 2 None (ones 2) None None.
Definition fresh1 : Population cell field :=
  mk 1 (Some "RI") (Some F) (Some chrom1) 2 None (ones 1) None None.

(** [Population('RI', F, 2)]: instantiated, not initialized. *)
Definition uninit : Population cell field :=
  mk 2 (Some "RI") (Some F) None 0 None (ones 2) None None.

(** [Population(None, None, 2)]: no encoding and no matrices but the
    fitness. *)
Definition bare : Population cell field :=
  mk 2 None None None 0 None (ones 2) None None.

(** Populations without an encoding: [Population(None, None, 3, ObjV =
    objv3, Phen = chrom3)] and one individual to assign from. *)
Definition plainA : Population cell field :=
  mk 3 None None None 0 (Some objv3) (ones 3) None (Some chrom3).
Definition plain1 : Population cell field :=
  mk 1 None None None 0 (Some objv1) (ones 1) None (Some chrom1).

(** [popA] after [popA[[2, 0]] = popB]. *)
Definition popA_assigned : Population cell field :=
  mk 3 (Some "RI") (Some F)
     (Some (mat 2 [[9; 10]; [3; 4]; [7; 8]]%Z)) 2
     (Some (mat 1 [[50]; [20]; [40]]%Z)) (ones 3) None
     (Some (mat 2 [[9; 10]; [3; 4]; [7; 8]]%Z)).

(** A third population to merge, of a single individual. *)
Definition popC : Population cell field :=
  mk 1 (Some "RI") (Some F) (Some chrom1) 2 (Some objv1) (ones 1) None (Some chrom1).

(** [popA[[2, 0, 2]]] *)
Definition popA_202 : Population cell field :=
  mk 3 (Some "RI") (Some F)
     (Some (mat 2 [[5; 6]; [1; 2]; [5; 6]]%Z)) 2
     (Some (mat 1 [[30]; [10]; [30]]%Z)) (ones 3) None
     (Some (mat 2 [[5; 6]; [1; 2]; [5; 6]]%Z)).

(** [popB + popC] and [popA + popB] *)
Definition popBC : Population cell field :=
  mk 3 (Some "RI") (Some F)
     (Some (mat 2 [[7; 8]; [9; 10]; [11; 12]]%Z)) 2
     (Some (mat 1 [[40]; [50]; [60]]%Z)) (ones 3) None
     (Some (mat 2 [[7; 8]; [9; 10]; [11; 12]]%Z)).
Definition popAB : Population cell field :=
  mk 5 (Some "RI") (Some F)
     (Some (mat 2 [[1; 2]; [3; 4]; [5; 6]; [7; 8]; [9; 10]]%Z)) 2
     (Some (mat 1 [[10]; [20]; [30]; [40]; [50]]%Z)) (ones 5) None
     (Some (mat 2 [[1; 2]; [3; 4]; [5; 6]; [7; 8]; [9; 10]]%Z)).
Definition popABC : Population cell field :=
  mk 6 (Some "RI") (Some F)
     (Some (mat 2 [[1; 2]; [3; 4]; [5; 6]; [7; 8]; [9; 10]; [11; 12]]%Z)) 2
     (Some (mat 1 [[10]; [20]; [30]; [40]; [50]; [60]]%Z)) (ones 6) None
     (Some (mat 2 [[1; 2]; [3; 4]; [5; 6]; [7; 8]; [9; 10]; [11; 12]]%Z)).

(** [bare] after [bare.initChrom()] has raised. *)
Definition bare_half_reset : Population cell field :=
  mk 2 None None (Some (Matrix 2 [[Num 0; Num 0]; [Num 0; Num 0]])) 2
     None (ones 2) None None.

(** [uninit] after [uninit.initChrom(3)]. *)
Definition uninit_init3 : Population cell field :=
  mk 3 (Some "RI") (Some F)
     (Some (Matrix 2 (replicate 3 [Num 0; Num 0]))) 2 None (ones 3) None
     (Some (Matrix 2 (replicate 3 [Num 0; Num 0]))).

(** Two individuals without an encoding, to assign from. *)
Definition plain2 : Population cell field :=
  mk 2 None None None 0 (Some objv2) (ones 2) None (Some chrom2).

End Demo.

(** ** Further notions of the data model *)

Section Derived.
Context {elem field : Type}.
Implicit Types (p : Population elem field) (a b : option (matrix elem)).

(** [Lind] is the column count of the stored genotype, 0 without one. *)
Definition lind_consistent p : Prop :=
  Lind p = from_option ncols 0 (Chrom p).

(** The shape of an attribute: absent, or its row and column counts. *)
Definition shape a : option (nat * nat) :=
  (λ m, (nrows m, ncols m)) <$> a.

(** The index sequence of a view of a view: entry [j] of [index2] selects
    entry [j] of [index1]. *)
Definition compose_index (index1 index2 : list Z) : list Z :=
  omap (λ j, index1 !! Z.to_nat j) index2.

(** The index sequence [lo, lo + 1, ..., lo + n - 1]. *)
Definition arange (lo n : nat) : list Z := Z.of_nat <$> seq lo n.

(** [spread_from index a b a']: where the attribute [a] of [self] is
    present and the attribute [b] of the source is present with a single
    row and the columns of [a], every row of [a'] listed in [index] is that
    row (numpy broadcasts the one row to all of them). *)
Definition spread_from (index : list Z) a b a' : Prop :=
  ∀ x y row, a = Some y → b = Some x →
             rows x = [row] → ncols x = ncols y →
             ∀ z, z ∈ index → row_at a' (Z.to_nat z) = Some row.

End Derived.

(** ** Facts about the array operations *)

Section NumpyFacts.
Context {elem : Type}.
Implicit Types (m : matrix elem) (index : list Z).

Lemma bind_Return {A B} (r : result A) (f : A → result B) (b : B) :
  r ≫= f = Return b ↔ ∃ a, r = Return a ∧ f a = Return b.
Proof.
  destruct r as [a|e]; simpl.
  - split; [eauto|]. by intros (?&[= <-]&?).
  - split; [done|]. by intros (?&?&?).
Qed.

Lemma mapM_Return {A B} (f : A → result B) (l : list A) (k : list B) :
  mapM f l = Return k ↔ Forall2 (λ x y, f x = Return y) l k.
Proof.
  split.
  - revert k. induction l as [|x l IH]; intros k Hk; simpl in Hk.
    + injection Hk as <-. constructor.
    + apply bind_Return in Hk as (y&Hx&Hk).
      apply bind_Return in Hk as (k'&Hl&[= <-]).
      constructor; auto.
  - induction 1 as [|x y l k Hx _ IH]; simpl; [done|].
    apply bind_Return. exists y. split; [done|].
    apply bind_Return. by exists k.
Qed.

Lemma mapM_Raise_or_Return {A B} (f : A → result B) (l : list A) :
  Forall (λ x, ∃ y, f x = Return y) l → ∃ k, mapM f l = Return k.
Proof.
  induction 1 as [|x l [y Hy] _ [k IH]].
  - by exists [].
  - exists (y :: k). apply mapM_Return. constructor; [done|].
    by apply mapM_Return.
Qed.

Lemma py_index_nonneg (n : nat) (z : Z) :
  (0 ≤ z < Z.of_nat n)%Z → py_index n z = Return (Z.to_nat z).
Proof. intros Hz. unfold py_index. by rewrite decide_True. Qed.

Lemma py_index_lt (n : nat) (z : Z) (k : nat) :
  py_index n z = Return k → k < n.
Proof.
  unfold py_index. repeat case_decide; intros [= <-]; lia.
Qed.

Lemma py_index_nonneg_inv (n : nat) (z : Z) (k : nat) :
  (0 ≤ z)%Z → py_index n z = Return k → Z.of_nat k = z.
Proof.
  unfold py_index. repeat case_decide; intros ? [= <-]; lia.
Qed.

Lemma row_of_Return m (z : Z) (r : list elem) :
  row_of m z = Return r ↔
  ∃ k, py_index (nrows m) z = Return k ∧ rows m !! k = Some r.
Proof.
  unfold row_of, mbind, result_bind.
  destruct (py_index (nrows m) z) as [k|e]; [|split; [done|by intros (?&?&?)]].
  destruct (rows m !! k) as [r'|] eqn:Hr.
  - split; [intros [= <-]; eauto|]. intros (k'&[= <-]&Hk). congruence.
  - split; [done|]. intros (k'&[= <-]&Hk). congruence.
Qed.

Lemma row_of_nonneg m (z : Z) :
  (0 ≤ z < Z.of_nat (nrows m))%Z →
  ∃ r, row_of m z = Return r ∧ rows m !! Z.to_nat z = Some r.
Proof.
  intros Hz. destruct (lookup_lt_is_Some_2 (rows m) (Z.to_nat z)) as [r Hr].
  { unfold nrows in Hz. lia. }
  exists r. split; [|done]. apply row_of_Return.
  exists (Z.to_nat z). by rewrite py_index_nonneg.
Qed.

Lemma fancy_get_Return m index m' :
  fancy_get m index = Return m' ↔
  ncols m' = ncols m ∧ Forall2 (λ z r, row_of m z = Return r) index (rows m').
Proof.
  unfold fancy_get. split.
  - intros (rs&Hrs&[= <-])%bind_Return. simpl. split; [done|].
    by apply mapM_Return.
  - intros [Hc H]. apply bind_Return. exists (rows m').
    split; [by apply mapM_Return|]. destruct m'; simpl in *; by subst.
Qed.

Lemma fancy_get_nrows m index m' :
  fancy_get m index = Return m' → nrows m' = length index.
Proof.
  intros [_ H]%fancy_get_Return. unfold nrows. symmetry.
  by eapply Forall2_length.
Qed.

Lemma fancy_get_ncols m index m' :
  fancy_get m index = Return m' → ncols m' = ncols m.
Proof. by intros [? _]%fancy_get_Return. Qed.

(** A gather by valid indices counted from the first row succeeds, and row
    [i] of the result is row [index[i]] of the source. *)
Lemma fancy_get_valid m index :
  Forall (λ z, 0 ≤ z < Z.of_nat (nrows m))%Z index →
  ∃ m', fancy_get m index = Return m' ∧
        ∀ i z, index !! i = Some z → rows m' !! i = rows m !! Z.to_nat z.
Proof.
  intros Hidx.
  destruct (mapM_Raise_or_Return (row_of m) index) as [rs Hrs].
  { eapply Forall_impl; [exact Hidx|]. simpl. intros z Hz.
    destruct (row_of_nonneg m z Hz) as (r&?&?). eauto. }
  exists (Matrix (ncols m) rs). split.
  - apply bind_Return. eauto.
  - intros i z Hi. simpl. apply mapM_Return in Hrs.
    destruct (Forall2_lookup_l _ _ _ _ _ Hrs Hi) as (r&Hr&Hz).
    rewrite Hr. rewrite Forall_forall in Hidx.
    destruct (row_of_nonneg m z) as (r'&Hr'&Hl).
    { apply Hidx. by eapply list_elem_of_lookup_2. }
    congruence.
Qed.

End NumpyFacts.

Section AssignFacts.
Context {elem : Type}.
Variable cast_none : option elem.
Implicit Types (m x : matrix elem) (index : list Z) (ks : list nat)
  (rs l : list (list elem)).

Lemma foldl_write_length l (kvs : list (nat * list elem)) :
  length (foldl write_row l kvs) = length l.
Proof.
  revert l. induction kvs as [|kr kvs IH]; intros l; simpl; [done|].
  rewrite IH. apply length_insert.
Qed.

(** A row that is not a target keeps its content. *)
Lemma foldl_write_other l (kvs : list (nat * list elem)) (k : nat) :
  k ∉ kvs.*1 → foldl write_row l kvs !! k = l !! k.
Proof.
  revert l. induction kvs as [|[k' r] kvs IH]; intros l Hk; simpl; [done|].
  rewrite fmap_cons, not_elem_of_cons in Hk. destruct Hk as [Hne Hk].
  rewrite IH by done. unfold write_row. simpl.
  by rewrite list_lookup_insert_ne.
Qed.

(** A target row holds what was written to it last. *)
Lemma foldl_write_last l (kvs : list (nat * list elem)) (i k : nat)
    (r : list elem) :
  kvs !! i = Some (k, r) →
  (∀ j kr, i < j → kvs !! j = Some kr → kr.1 ≠ k) →
  k < length l →
  foldl write_row l kvs !! k = Some r.
Proof.
  revert l i. induction kvs as [|[k' r'] kvs IH]; intros l i Hi Hlast Hk; [done|].
  simpl. destruct i as [|i]; simpl in Hi.
  - injection Hi as -> ->. rewrite foldl_write_other.
    + unfold write_row. simpl. by rewrite list_lookup_insert_eq.
    + intros [kr [Heq [j Hj]%list_elem_of_lookup_1]]%list_elem_of_fmap.
      by apply (Hlast (S j) kr); [lia| |].
  - apply (IH _ i); [done| |unfold write_row; by rewrite length_insert].
    intros j kr Hj Hkr. apply (Hlast (S j) kr); [lia|done].
Qed.

Lemma broadcast_axis_length (n : nat) rs l :
  broadcast_axis n l = Return rs → length rs = n.
Proof.
  unfold broadcast_axis. case_decide; [by intros [= <-]|].
  destruct l as [|r [|]]; try done. intros [= <-]. apply length_replicate.
Qed.

Lemma broadcast_length (k c : nat) x rs :
  broadcast k c x = Return rs → length rs = k.
Proof.
  unfold broadcast. intros (rs'&Hrs'%broadcast_axis_length&H)%bind_Return.
  repeat case_decide; try done; injection H as <-; [done|].
  by rewrite length_map.
Qed.

(** A value that already has the shape of the target is written as it is. *)
Lemma broadcast_same_shape (k c : nat) x :
  nrows x = k → ncols x = c → broadcast k c x = Return (rows x).
Proof.
  intros Hk Hc. unfold broadcast, broadcast_axis.
  rewrite decide_True by done. simpl. by rewrite decide_True.
Qed.

Lemma fancy_set_Return m index v m' :
  fancy_set cast_none m index v = Return m' ↔
  ∃ x rs ks, as_value cast_none v = Return x ∧
             broadcast (length index) (ncols m) x = Return rs ∧
             mapM (py_index (nrows m)) index = Return ks ∧
             m' = Matrix (ncols m) (foldl write_row (rows m) (zip ks rs)).
Proof.
  unfold fancy_set. split.
  - intros (x&Hx&(rs&Hrs&(ks&Hks&[= <-])%bind_Return)%bind_Return)%bind_Return.
    by exists x, rs, ks.
  - intros (x&rs&ks&Hx&Hrs&Hks&->).
    apply bind_Return. exists x. split; [done|].
    apply bind_Return. exists rs. split; [done|].
    apply bind_Return. by exists ks.
Qed.

(** An assignment changes neither the number of rows nor of columns. *)
Lemma fancy_set_shape m index v m' :
  fancy_set cast_none m index v = Return m' →
  nrows m' = nrows m ∧ ncols m' = ncols m.
Proof.
  intros (x&rs&ks&_&_&_&->)%fancy_set_Return. unfold nrows. simpl.
  by rewrite foldl_write_length.
Qed.

Lemma index_targets index (n : nat) ks :
  Forall (λ z, 0 ≤ z)%Z index →
  mapM (py_index n) index = Return ks →
  index = Z.of_nat <$> ks ∧ Forall (λ k, k < n) ks.
Proof.
  intros Hnn Hks%mapM_Return. induction Hks as [|z k index ks Hz _ IH].
  - split; [done|constructor].
  - apply Forall_cons in Hnn as [Hz0 Hnn]. destruct (IH Hnn) as [-> Hlt].
    split.
    + rewrite fmap_cons. f_equal. symmetry. by eapply py_index_nonneg_inv.
    + constructor; [by eapply py_index_lt|done].
Qed.

(** The frame of an assignment, for indices of either sign: a row that no
    entry of [index] denotes keeps its content. *)
Lemma fancy_set_untouched m index v m' (r : nat) :
  fancy_set cast_none m index v = Return m' →
  (∀ z, z ∈ index → py_index (nrows m) z ≠ Return r) →
  rows m' !! r = rows m !! r.
Proof.
  intros (x&rs&ks&_&_&Hks&->)%fancy_set_Return Hr. simpl.
  apply foldl_write_other.
  intros [[k row] [Hk Hin]]%list_elem_of_fmap. simpl in Hk. subst k.
  apply list_elem_of_lookup_1 in Hin as [j Hj].
  apply lookup_zip_with_Some in Hj as (k'&?&[= <- <-]&Hk'&_).
  apply mapM_Return in Hks.
  destruct (Forall2_lookup_r _ _ _ _ _ Hks Hk') as (z&Hz&Hzr).
  apply (Hr z); [|done]. by eapply list_elem_of_lookup_2.
Qed.

(** The frame of an assignment: a row whose index is not listed keeps its
    content. *)
Lemma fancy_set_frame m index v m' (r : nat) :
  fancy_set cast_none m index v = Return m' →
  Forall (λ z, 0 ≤ z)%Z index →
  Z.of_nat r ∉ index →
  rows m' !! r = rows m !! r.
Proof.
  intros Hm Hnn Hr. apply (fancy_set_untouched _ _ _ _ _ Hm).
  intros z Hz Hzr. rewrite Forall_forall in Hnn.
  apply py_index_nonneg_inv in Hzr; [|by apply Hnn]. by subst z.
Qed.

(** The rows that an assignment writes: the row listed at position [i]
    receives row [i] of a value of the target's shape, unless the same row
    is listed again later. *)
Lemma fancy_set_written m index x m' (i : nat) (z : Z) :
  fancy_set cast_none m index (Some x) = Return m' →
  nrows x = length index → ncols x = ncols m →
  Forall (λ z, 0 ≤ z)%Z index →
  index !! i = Some z →
  (∀ j, i < j → index !! j ≠ Some z) →
  rows m' !! Z.to_nat z = rows x !! i.
Proof.
  intros (x'&rs&ks&[= <-]&Hrs&Hks&->)%fancy_set_Return Hn Hc Hnn Hi Hlast.
  rewrite broadcast_same_shape in Hrs by done. injection Hrs as <-. simpl.
  destruct (index_targets _ _ _ Hnn Hks) as [-> Hlt].
  rewrite list_lookup_fmap in Hi.
  destruct (ks !! i) as [k|] eqn:Hk; [|done]. injection Hi as <-.
  rewrite Nat2Z.id.
  destruct (lookup_lt_is_Some_2 (rows x) i) as [row Hrow].
  { unfold nrows in Hn. rewrite Hn, length_fmap. by eapply lookup_lt_Some. }
  rewrite Hrow. apply (foldl_write_last _ _ i).
  - apply lookup_zip_with_Some. by exists k, row.
  - intros j [k' row'] Hj (?&?&[= <- <-]&Hk'&_)%lookup_zip_with_Some. simpl.
    intros ->. apply (Hlast j Hj). rewrite list_lookup_fmap. by rewrite Hk'.
  - rewrite Forall_forall in Hlt. apply Hlt. by eapply list_elem_of_lookup_2.
Qed.

(** A single row written to every target is found at every target. *)
Lemma foldl_write_replicate l (ks : list nat) (row : list elem) (k : nat) :
  k ∈ ks → k < length l →
  foldl write_row l (zip ks (replicate (length ks) row)) !! k = Some row.
Proof.
  revert l. induction ks as [|k' ks IH]; intros l Hk Hlt.
  { by apply elem_of_nil in Hk. }
  simpl. destruct (decide (k ∈ ks)) as [Hin|Hout].
  - apply IH; [done|]. unfold write_row. by rewrite length_insert.
  - apply elem_of_cons in Hk as [->|Hk]; [|done].
    rewrite foldl_write_other.
    + unfold write_row. simpl. by apply list_lookup_insert_eq.
    + rewrite fst_zip; [done|]. by rewrite length_replicate.
Qed.

(** The rows that an assignment writes when the value has a single row:
    numpy broadcasts it, so every listed row receives it. *)
Lemma fancy_set_spread m index x m' (row : list elem) (z : Z) :
  fancy_set cast_none m index (Some x) = Return m' →
  rows x = [row] → ncols x = ncols m →
  Forall (λ z, 0 ≤ z)%Z index →
  z ∈ index →
  rows m' !! Z.to_nat z = Some row.
Proof.
  intros (x'&rs&ks&[= <-]&Hrs&Hks&->)%fancy_set_Return Hx Hc Hnn Hz.
  destruct (index_targets _ _ _ Hnn Hks) as [-> Hlt].
  rewrite length_fmap in Hrs.
  assert (rs = replicate (length ks) row) as ->.
  { unfold broadcast in Hrs. apply bind_Return in Hrs as (rs'&Hax&Hrs).
    rewrite decide_True in Hrs by done. injection Hrs as <-.
    unfold broadcast_axis in Hax. rewrite Hx in Hax.
    case_decide as Hl; injection Hax as <-; [|done].
    simpl in Hl. by rewrite <- Hl. }
  apply list_elem_of_fmap in Hz as (k&->&Hk). rewrite Nat2Z.id. simpl.
  apply foldl_write_replicate; [done|].
  rewrite Forall_forall in Hlt. by apply Hlt.
Qed.

End AssignFacts.

(** ** Properties of the methods *)

Section Properties.
Context {elem field : Type}.
Variables (one py_none : elem) (cast_none : option elem).
Variable Field_agree : option field → option field → bool.
Variable crtpc : option string → Z → option field → result (matrix elem).
Variable bs2ri : option (matrix elem) → option field → result (matrix elem).
Variable rng : nat → Q.
Implicit Types (p q self pop : Population elem field)
  (a b : option (matrix elem)) (m : matrix elem) (index : list Z).

Lemma raise_if_Return (c : bool) (msg : message) (u : unit) :
  raise_if c msg = Return u ↔ c = false.
Proof. destruct c, u; simpl; split; done. Qed.

(** What the constructor stores when it returns. *)
Lemma init_Return E (F : option field) (N : Z) C O Fi V P q :
  __init__ one E F N C O Fi V P = Return q ↔
  (0 ≤ N)%Z ∧ (E ≠ None → F ≠ None) ∧
  q = mkPopulation N E
        (if E is Some _ then F else None)
        (if E is Some _ then C else None)
        (from_option ncols 0 C)
        O
        (from_option id (Matrix 1 (replicate (Z.to_nat N) [one])) Fi)
        V P.
Proof.
  unfold __init__, np_ones, copy_array. split.
  - intros (_&Hn%raise_if_Return&H)%bind_Return.
    apply negb_false_iff, bool_decide_eq_true in Hn.
    apply bind_Return in H as (fc&Hfc&H).
    apply bind_Return in H as (Fi'&HFi&[= <-]).
    split; [done|].
    destruct E as [e|], F as [f|]; simpl in Hfc; try done;
      injection Hfc as <-; (split; [done|]);
      destruct Fi as [fi|], C as [c|]; simpl in *;
      try rewrite decide_False in HFi by lia;
      injection HFi as <-; by rewrite ?option_fmap_id.
  - intros (Hn&HF&->).
    apply bind_Return. exists tt. split.
    { apply raise_if_Return, negb_false_iff. by apply bool_decide_eq_true. }
    destruct E as [e|].
    + destruct F as [f|]; [|by destruct HF]. simpl.
      destruct Fi as [fi|]; simpl; [by rewrite !option_fmap_id|].
      rewrite decide_False by lia. simpl. by rewrite !option_fmap_id.
    + simpl. destruct Fi as [fi|]; simpl; [by rewrite !option_fmap_id|].
      rewrite decide_False by lia. simpl. by rewrite !option_fmap_id.
Qed.

Lemma fmap_Return {A B} (f : A → B) (r : result A) (y : B) :
  f <$> r = Return y ↔ ∃ x, r = Return x ∧ y = f x.
Proof.
  destruct r as [x|e]; simpl.
  - split; [intros [= <-]; eauto|]. by intros (?&[= <-]&->).
  - split; [done|]. by intros (?&?&?).
Qed.

Lemma subscript_if_present_Return a index b :
  subscript_if_present a index = Return b ↔
  match a with
  | Some m => ∃ m', fancy_get m index = Return m' ∧ b = Some m'
  | None => b = None
  end.
Proof.
  destruct a as [m|]; simpl.
  - apply fmap_Return.
  - split; [by intros [= <-]|by intros ->].
Qed.

(** A gather of an attribute of [n] rows by valid indices: it succeeds, an
    absent attribute stays absent, and row [i] of the result is row
    [index[i]] of the source. *)
Lemma subscript_if_present_valid (n : Z) a index :
  has_rows n a →
  Forall (λ z, 0 ≤ z < n)%Z index →
  ∃ b, subscript_if_present a index = Return b ∧
       (b = None ↔ a = None) ∧
       has_rows (Z.of_nat (length index)) b ∧
       same_columns b a ∧
       ∀ i z, index !! i = Some z → row_at b i = row_at a (Z.to_nat z).
Proof.
  intros Hn Hidx. destruct a as [m|]; simpl in *.
  - subst n. destruct (fancy_get_valid m index Hidx) as (m'&Hm'&Hrows).
    exists (Some m'). rewrite Hm'. simpl. split_and!; try done.
    + f_equal. by eapply fancy_get_nrows.
    + by eapply fancy_get_ncols.
  - exists None. by split_and!.
Qed.

Lemma getitem_Return self index q :
  __getitem__ one self index = Return q ↔
  ∃ c o f v ph,
    match Encoding self with
    | Some _ => Field self ≠ None ∧
                ∃ m, Chrom self = Some m ∧ Some <$> fancy_get m index = Return c
    | None => c = None
    end ∧
    fancy_get (FitnV self) index = Return f ∧
    subscript_if_present (ObjV self) index = Return o ∧
    subscript_if_present (CV self) index = Return v ∧
    subscript (Phen self) index = Return ph ∧
    q = mkPopulation (Z.of_nat (nrows f)) (Encoding self)
          (if Encoding self is Some _ then Field self else None)
          c (from_option ncols 0 c) o f v (Some ph).
Proof.
  unfold __getitem__. split.
  - intros (c&Hc&(f&Hf&(o&Ho&(v&Hv&(ph&Hph&Hq)%bind_Return)%bind_Return)
            %bind_Return)%bind_Return)%bind_Return.
    apply init_Return in Hq as (_&HF&->). exists c, o, f, v, ph.
    split_and!; try done.
    + destruct (Encoding self) as [e|] eqn:He.
      * split; [by apply HF|].
        apply bind_Return in Hc as (_&Hn%raise_if_Return&Hc).
        apply bool_decide_eq_false in Hn.
        destruct (Chrom self) as [m|]; [|done]. by exists m.
      * by injection Hc as <-.
    + f_equal. by destruct (Encoding self), c.
  - intros (c&o&f&v&ph&Hc&Hf&Ho&Hv&Hph&->).
    apply bind_Return. exists c. split.
    { destruct (Encoding self) as [e|]; [|by subst].
      destruct Hc as (_&m&Hm&Hc). apply bind_Return. exists tt. split.
      - apply raise_if_Return, bool_decide_eq_false. by rewrite Hm.
      - by rewrite Hm. }
    apply bind_Return. exists f. split; [done|].
    apply bind_Return. exists o. split; [done|].
    apply bind_Return. exists v. split; [done|].
    apply bind_Return. exists ph. split; [done|].
    apply init_Return. split_and!; [lia| |].
    + destruct (Encoding self); [|done]. by destruct Hc.
    + f_equal. destruct (Encoding self) as [e|]; [done|by subst].
Qed.

Lemma row_aligned_iff p :
  row_aligned p ↔
  has_rows (sizes p) (Chrom p) ∧ has_rows (sizes p) (ObjV p) ∧
  Z.of_nat (nrows (FitnV p)) = sizes p ∧
  has_rows (sizes p) (CV p) ∧ has_rows (sizes p) (Phen p).
Proof.
  unfold row_aligned, attributes. rewrite !Forall_cons, Forall_nil. tauto.
Qed.

Lemma attributes_Forall2 (R : relation (option (matrix elem))) q p :
  Forall2 R (attributes q) (attributes p) ↔
  R (Chrom q) (Chrom p) ∧ R (ObjV q) (ObjV p) ∧
  R (Some (FitnV q)) (Some (FitnV p)) ∧
  R (CV q) (CV p) ∧ R (Phen q) (Phen p).
Proof.
  unfold attributes. split.
  - intros H. repeat (apply Forall2_cons_1 in H as [? H]). by split_and!.
  - intros (?&?&?&?&?). by repeat constructor.
Qed.

(** The indexed view of an initialized, row-aligned population with a
    phenotype, by valid indices. *)
Lemma getitem_valid self index :
  initialized self → Phen self ≠ None → row_aligned self →
  Forall (λ z, 0 ≤ z < sizes self)%Z index →
  ∃ q, __getitem__ one self index = Return q ∧
       sizes q = Z.of_nat (length index) ∧
       Encoding q = Encoding self ∧ Field q = Field self ∧
       row_aligned q ∧
       Forall2 (λ b a, (b = None ↔ a = None) ∧ same_columns b a ∧
                  ∀ i z, index !! i = Some z →
                         row_at b i = row_at a (Z.to_nat z))
               (attributes q) (attributes self).
Proof.
  intros [Hsc Hinit] HPhen (HC&HO&HF&HV&HP)%row_aligned_iff Hidx.
  destruct (subscript_if_present_valid _ _ _ HC Hidx) as (c&Hc&Hc0&Hcn&Hcc&Hcr).
  destruct (subscript_if_present_valid _ _ _ HO Hidx) as (o&Ho&Ho0&Hon&Hoc&Hor).
  destruct (subscript_if_present_valid _ (Some (FitnV self)) _ HF Hidx)
    as (f'&Hf&Hf0&Hfn&Hfc&Hfr).
  destruct (subscript_if_present_valid _ _ _ HV Hidx) as (v&Hv&Hv0&Hvn&Hvc&Hvr).
  destruct (subscript_if_present_valid _ _ _ HP Hidx) as (ph'&Hph&Hph0&Hphn&Hphc&Hphr).
  apply fmap_Return in Hf as (f&Hf&->).
  destruct (Phen self) as [ph|] eqn:HPh; [clear HPhen|done].
  apply fmap_Return in Hph as (ph2&Hph&->).
  set (q := mkPopulation (Z.of_nat (nrows f)) (Encoding self)
              (if Encoding self is Some _ then Field self else None)
              c (from_option ncols 0 c) o f v (Some ph2)).
  assert (Hn : nrows f = length index) by (by eapply fancy_get_nrows).
  exists q. split_and!.
  - apply getitem_Return. exists c, o, f, v, ph2. rewrite HPh.
    split_and!; try done. unfold scheme_consistent in Hsc.
    destruct (Encoding self) as [e|].
    + split; [done|]. destruct (Chrom self) as [m|] eqn:HCh.
      * by exists m.
      * by destruct Hinit.
    + destruct Hsc as [_ HCh]. rewrite HCh in Hc. by injection Hc as <-.
  - simpl. by rewrite Hn.
  - done.
  - simpl. unfold scheme_consistent in Hsc.
    destruct (Encoding self); [done|]. by destruct Hsc as [-> _].
  - apply row_aligned_iff. simpl. rewrite Hn. by split_and!.
  - apply attributes_Forall2. subst q. simpl. rewrite HPh. by split_and!.
Qed.

(** C2.  For every initialized, row-aligned population [self] with a
    phenotype and every sequence [index] of valid 0-based row indices
    (repetition and omission allowed), the indexed view [self[index]]
    returns a population whose size is the length of [index] and in which
    row [i] of every attribute is row [index[i]] of the same attribute of
    [self] (in particular of the phenotype); an attribute is absent in the
    view exactly when it is absent in [self]. *)
Theorem getitem_gathers_rows self index :
  initialized self → Phen self ≠ None → row_aligned self →
  Forall (λ z, 0 ≤ z < sizes self)%Z index →
  ∃ q, __getitem__ one self index = Return q ∧
       sizes q = Z.of_nat (length index) ∧
       (∀ i z, index !! i = Some z →
               row_at (Phen q) i = row_at (Phen self) (Z.to_nat z)) ∧
       Forall2 (λ b a, (b = None ↔ a = None) ∧
                  ∀ i z, index !! i = Some z →
                         row_at b i = row_at a (Z.to_nat z))
               (attributes q) (attributes self).
Proof.
  intros Hinit HPhen Hal Hidx.
  destruct (getitem_valid self index Hinit HPhen Hal Hidx)
    as (q&Hq&Hsz&_&_&_&Hattr).
  exists q. split_and!; [done|done| |].
  - apply attributes_Forall2 in Hattr as (_&_&_&_&_&_&HP). exact HP.
  - eapply Forall2_impl; [exact Hattr|]. simpl. intros b a (?&_&?). by split.
Qed.

(** C7 (as amended).  Whenever the indexed view [self[index]] returns, the
    objective values and the constraint violations are absent in the view
    exactly when they are absent in [self], and the phenotype is present in
    [self] and in the view: the view subscripts the phenotype
    unconditionally and does not return when it is absent.  The view does
    return on every initialized, row-aligned population with a phenotype
    and valid indices. *)
Theorem getitem_presence self index :
  (∀ q, __getitem__ one self index = Return q →
        (ObjV q = None ↔ ObjV self = None) ∧
        (CV q = None ↔ CV self = None) ∧
        Phen self ≠ None ∧ Phen q ≠ None) ∧
  (Phen self = None → ∃ e, __getitem__ one self index = Raise e) ∧
  (initialized self → Phen self ≠ None → row_aligned self →
   Forall (λ z, 0 ≤ z < sizes self)%Z index →
   ∃ q, __getitem__ one self index = Return q).
Proof.
  assert (Hret : ∀ q, __getitem__ one self index = Return q →
        (ObjV q = None ↔ ObjV self = None) ∧
        (CV q = None ↔ CV self = None) ∧
        Phen self ≠ None ∧ Phen q ≠ None); [|split; [exact Hret|split]].
  - intros q (c&o&f&v&ph&_&_&Ho&Hv&Hph&->)%getitem_Return. simpl.
    apply subscript_if_present_Return in Ho, Hv.
    split_and!.
    + destruct (ObjV self); [by destruct Ho as (?&_&->)|by subst].
    + destruct (CV self); [by destruct Hv as (?&_&->)|by subst].
    + by destruct (Phen self).
    + done.
  - intros HPhen.
    destruct (__getitem__ one self index) as [q|e] eqn:Hq; [|by exists e].
    by destruct (Hret q eq_refl) as (_&_&?&_).
  - intros Hinit HPhen Hal Hidx.
    destruct (getitem_valid self index Hinit HPhen Hal Hidx) as (q&Hq&_).
    by exists q.
Qed.

(** C9.  With the scheme 'RI' or 'P' and a genotype present, [decoding]
    returns a phenotype equal to the genotype, cell for cell; with a scheme
    other than 'BG', 'RI' and 'P' (also with no scheme) it raises the
    error of an unsupported encoding. *)
Theorem decoding_self_decoding self :
  (∀ c, Encoding self = Some "RI" ∨ Encoding self = Some "P" →
        Chrom self = Some c →
        decoding bs2ri self = Return c) ∧
  (Encoding self ∉ [Some "BG"; Some "RI"; Some "P"] →
   decoding bs2ri self = Raise (RuntimeError Encoding_must_be_BG_RI_P)).
Proof.
  unfold decoding. split.
  - intros c He Hc. rewrite decide_False by (by destruct He as [-> | ->]).
    rewrite decide_True by done. by rewrite Hc.
  - intros He. rewrite !not_elem_of_cons in He. destruct He as (?&?&?&_).
    rewrite decide_False by done. rewrite decide_False by tauto. done.
Qed.

(** Every population that the constructor returns is scheme-consistent. *)
Lemma init_scheme_consistent E (F : option field) (N : Z) C O Fi V P q :
  __init__ one E F N C O Fi V P = Return q → scheme_consistent q.
Proof.
  intros (_&HF&->)%init_Return. unfold scheme_consistent. simpl.
  destruct E; [by apply HF|done].
Qed.

(** With an encoding, or without a genotype argument, the constructor leaves
    [Lind] equal to the column count of the stored genotype, 0 if there is
    none. *)
Lemma init_Lind E (F : option field) (N : Z) C O Fi V P q :
  __init__ one E F N C O Fi V P = Return q →
  E ≠ None ∨ C = None →
  Lind q = from_option ncols 0 (Chrom q).
Proof.
  intros (_&_&->)%init_Return HEC. simpl.
  destruct E; [done|]. by destruct HEC as [?| ->].
Qed.

(** The constructor takes [Lind] from its argument [Chrom] also when it
    does not store that argument. *)
Lemma init_None_Lind (F : option field) (n : nat) m o f v ph :
  ∃ q, __init__ one None F (Z.of_nat n) (Some m) o f v ph = Return q ∧
       Chrom q = None ∧ Lind q = ncols m.
Proof.
  eexists. split; [|split].
  - apply init_Return. split_and!; [lia|done|reflexivity].
  - done.
  - done.
Qed.

Lemma np_vstack_Some (x y : matrix elem) :
  ncols x = ncols y →
  np_vstack py_none (Some x) (Some y) = Return (Matrix (ncols x) (rows x ++ rows y)).
Proof. intros Hc. unfold np_vstack. simpl. by rewrite decide_True. Qed.

Lemma attributes_Forall3 (R : option (matrix elem) → option (matrix elem) →
                              option (matrix elem) → Prop) q p1 p2 :
  R (Chrom q) (Chrom p1) (Chrom p2) → R (ObjV q) (ObjV p1) (ObjV p2) →
  R (Some (FitnV q)) (Some (FitnV p1)) (Some (FitnV p2)) →
  R (CV q) (CV p1) (CV p2) → R (Phen q) (Phen p1) (Phen p2) →
  Forall3 R (attributes q) (attributes p1) (attributes p2).
Proof. intros. unfold attributes. by repeat constructor. Qed.

(** C3 (as amended).  Let [self] and [pop] be scheme-consistent, row-aligned
    populations that meet the preconditions of the merge (same scheme,
    agreeing decode fields, both genotypes present when there is a scheme,
    constraint violations present in both or in neither), that both carry
    objective values and a phenotype, and whose corresponding attributes
    have the same number of columns.  Then [self + pop] returns a
    row-aligned population whose size is the sum of the two sizes and in
    which the rows of every attribute are the rows of that attribute of
    [self] followed by those of [pop]; the fitness is concatenated as it
    is. *)
Theorem add_concatenates self pop :
  scheme_consistent self → scheme_consistent pop →
  row_aligned self → row_aligned pop →
  Encoding self = Encoding pop →
  Field_agree (Field self) (Field pop) = true →
  (Encoding self ≠ None → Chrom self ≠ None ∧ Chrom pop ≠ None) →
  (CV self = None ↔ CV pop = None) →
  ObjV self ≠ None → ObjV pop ≠ None →
  Phen self ≠ None → Phen pop ≠ None →
  Forall2 same_columns (attributes self) (attributes pop) →
  ∃ q, __add__ one py_none Field_agree self pop = Return q ∧
       sizes q = (sizes self + sizes pop)%Z ∧
       row_aligned q ∧
       rows (FitnV q) = rows (FitnV self) ++ rows (FitnV pop) ∧
       Forall3 (λ c a b, rows_of c = rows_of a ++ rows_of b ∧
                         (c = None ↔ a = None))
               (attributes q) (attributes self) (attributes pop).
Proof.
  intros Hsc1 Hsc2 (HC1&HO1&HF1&HV1&HP1)%row_aligned_iff
    (HC2&HO2&HF2&HV2&HP2)%row_aligned_iff He Hfield Hchrom Hcv
    HO1' HO2' HP1' HP2' (CC&CO&CF&CV'&CP)%attributes_Forall2.
  unfold __add__, scheme_consistent in *.
  destruct self as [s1 e1 f1 c1 l1 [o1|] fi1 v1 [ph1|]],
           pop as [s2 e2 f2 c2 l2 [o2|] fi2 v2 [ph2|]];
    simpl in *; try done. subst e2.
  rewrite (np_vstack_Some o1 o2), (np_vstack_Some fi1 fi2),
    (np_vstack_Some ph1 ph2) by done.
  assert (Hnn : (0 ≤ s1 + s2)%Z) by lia.
  assert (HV : ∃ v, match v1 with
                    | Some _ => Some <$> np_vstack py_none v1 v2
                    | None => Return None
                    end = Return v ∧
                    has_rows (s1 + s2) v ∧
                    rows_of v = rows_of v1 ++ rows_of v2 ∧
                    (v = None ↔ v1 = None)).
  { destruct v1 as [x|], v2 as [y|]; simpl in *;
      try (by destruct Hcv as [H1 H2]; (discriminate (H1 eq_refl) ||
                                        discriminate (H2 eq_refl))).
    - rewrite np_vstack_Some by done. eexists. split; [done|]. simpl.
      split_and!; [|done|done]. unfold nrows in *. simpl.
      rewrite length_app. lia.
    - by exists None. }
  destruct HV as (v&HV&HVn&HVr&HV0). rewrite HV. simpl.
  destruct e1 as [e|].
  - destruct (Hchrom ltac:(done)) as [Hc1 Hc2].
    destruct c1 as [x|], c2 as [y|]; try done. simpl in *.
    rewrite (bool_decide_eq_false_2 (Some e ≠ Some e)) by (intros H; by apply H).
    simpl.
    rewrite Hfield. simpl.
    replace (xorb (bool_decide (v1 = None)) (bool_decide (v2 = None)))
      with false
      by (destruct v1, v2; try done;
          destruct Hcv as [H1 H2];
          (discriminate (H1 eq_refl) || discriminate (H2 eq_refl))).
    simpl. rewrite np_vstack_Some by done. simpl.
    eexists. split.
    { apply init_Return. split_and!; [done|done|reflexivity]. }
    simpl. split_and!; [done| |done|].
    + apply row_aligned_iff. simpl. unfold nrows in *. simpl.
      rewrite !length_app. split_and!; try done; lia.
    + apply attributes_Forall3; simpl; try done.
  - destruct Hsc1 as [-> ->], Hsc2 as [-> ->]. simpl.
    eexists. split.
    { apply init_Return. split_and!; [done|done|reflexivity]. }
    simpl. split_and!; [done| |done|].
    + apply row_aligned_iff. simpl. unfold nrows in *. simpl.
      rewrite !length_app. split_and!; try done; lia.
    + apply attributes_Forall3; simpl; try done.
Qed.

Lemma assign_Return a index b m' :
  assign cast_none a index b = Return m' ↔
  ∃ m, a = Some m ∧ fancy_set cast_none m index b = Return m'.
Proof.
  destruct a as [m|]; simpl.
  - split; [by exists m|by intros (?&[= <-]&?)].
  - split; [done|by intros (?&?&?)].
Qed.

Lemma mut_bind_Return {A B} (c : mut A) (f : A → mut B) (s s' : Population elem field)
    (y : B) :
  (c ≫= f) s = (s', Return y) ↔
  ∃ x s1, c s = (s1, Return x) ∧ f x s1 = (s', Return y).
Proof.
  unfold mbind, mut_bind. destruct (c s) as [s1 [x|e]].
  - split; [by exists x, s1|by intros (?&?&[= <- <-]&?)].
  - split; [done|by intros (?&?&?&?)].
Qed.

Lemma lift_Return {A} (r : result A) (s s' : Population elem field) (x : A) :
  lift r s = (s', Return x) ↔ r = Return x ∧ s' = s.
Proof. unfold lift. split; [by intros [= <- <-]|by intros [-> ->]]. Qed.

(** What a completed assignment has done: the checks have passed if [self]
    has an encoding, and every attribute that is written is the result of
    the numpy assignment to the attribute that [self] had. *)
Lemma setitem_Return index pop self self' :
  __setitem__ cast_none Field_agree index pop self = (self', Return tt) →
  ∃ c o f v ph,
    match Encoding self with
    | Some _ =>
        Encoding self = Encoding pop ∧
        Field_agree (Field self) (Field pop) = true ∧
        Z.of_nat (length index) = sizes pop ∧
        (CV self = None ↔ CV pop = None) ∧
        ∃ m, assign cast_none (Chrom self) index (Chrom pop) = Return m ∧
             c = Some m
    | None => c = Chrom self
    end ∧
    assign cast_none (ObjV self) index (ObjV pop) = Return o ∧
    fancy_set cast_none (FitnV self) index (Some (FitnV pop)) = Return f ∧
    match CV self with
    | Some _ => ∃ m, assign cast_none (CV self) index (CV pop) = Return m ∧
                     v = Some m
    | None => v = None
    end ∧
    assign cast_none (Phen self) index (Phen pop) = Return ph ∧
    self' = mkPopulation (Z.of_nat (nrows ph)) (Encoding self) (Field self)
              c (Lind self) (Some o) f v (Some ph).
Proof.
  unfold __setitem__. intros H.
  apply mut_bind_Return in H as (s0&?&[= <- <-]&H).
  apply mut_bind_Return in H as ([]&s1&Hchrom&H).
  apply mut_bind_Return in H as (o&?&[Ho ->]%lift_Return&H).
  apply mut_bind_Return in H as ([]&s2&[= <-]&H).
  apply mut_bind_Return in H as (f&?&[Hf ->]%lift_Return&H).
  apply mut_bind_Return in H as ([]&s3&[= <-]&H).
  apply mut_bind_Return in H as ([]&s4&Hcv&H).
  apply mut_bind_Return in H as (ph&?&[Hph ->]%lift_Return&H).
  apply mut_bind_Return in H as ([]&s5&[= <-]&H).
  injection H as <-.
  assert (∃ c, s1 = set_Chrom c self ∧
    match Encoding self with
    | Some _ =>
        Encoding self = Encoding pop ∧
        Field_agree (Field self) (Field pop) = true ∧
        Z.of_nat (length index) = sizes pop ∧
        (CV self = None ↔ CV pop = None) ∧
        ∃ m, assign cast_none (Chrom self) index (Chrom pop) = Return m ∧
             c = Some m
    | None => c = Chrom self
    end) as (c&->&Hc).
  { destruct (Encoding self) as [e|] eqn:He.
    - apply mut_bind_Return in Hchrom
        as ([]&?&[H1%raise_if_Return ->]%lift_Return&Hchrom).
      apply mut_bind_Return in Hchrom
        as ([]&?&[H2%raise_if_Return ->]%lift_Return&Hchrom).
      apply mut_bind_Return in Hchrom
        as ([]&?&[H3%raise_if_Return ->]%lift_Return&Hchrom).
      apply mut_bind_Return in Hchrom
        as ([]&?&[H4%raise_if_Return ->]%lift_Return&Hchrom).
      apply mut_bind_Return in Hchrom
        as ([]&?&[H5%raise_if_Return ->]%lift_Return&Hchrom).
      apply mut_bind_Return in Hchrom as (m&?&[Hm ->]%lift_Return&Hchrom).
      injection Hchrom as <-. exists (Some m). split; [done|].
      apply bool_decide_eq_false in H1, H3.
      apply negb_false_iff in H2.
      split_and!.
      + by destruct (decide (Some e = Encoding pop)).
      + done.
      + by destruct (decide (Z.of_nat (length index) = sizes pop)).
      + destruct (CV self), (CV pop); simpl in H5; done.
      + by exists m.
    - injection Hchrom as <-. exists (Chrom self). by destruct self. }
  assert (∃ v, s4 = set_CV v (set_FitnV f (set_ObjV (Some o) (set_Chrom c self))) ∧
    match CV self with
    | Some _ => ∃ m, assign cast_none (CV self) index (CV pop) = Return m ∧
                     v = Some m
    | None => v = None
    end) as (v&->&Hv).
  { destruct (CV self) as [v0|] eqn:Hv0.
    - apply mut_bind_Return in Hcv as (m&?&[Hm ->]%lift_Return&Hcv).
      injection Hcv as <-. exists (Some m). split; [done|]. by exists m.
    - injection Hcv as <-. exists None. split; [|done].
      unfold set_CV, set_FitnV, set_ObjV, set_Chrom. simpl. by rewrite Hv0. }
  exists c, o, f, v, ph. by split_and!.
Qed.

(** C4 (as amended).  When [self] has an encoding, the scheme of [pop] is
    the same and the decode fields agree, an index sequence whose length
    differs from the size of [pop] makes [self[index] = pop] raise the
    error 'Sizes disagree', and [self] is left exactly as it was.  (A
    population without an encoding makes none of the checks.) *)
Theorem setitem_size_mismatch index pop self :
  Encoding self ≠ None →
  Encoding self = Encoding pop →
  Field_agree (Field self) (Field pop) = true →
  Z.of_nat (length index) ≠ sizes pop →
  __setitem__ cast_none Field_agree index pop self
  = (self, Raise (RuntimeError Sizes_disagree)).
Proof.
  intros He Hep Hf Hlen. unfold __setitem__.
  unfold mbind, mut_bind, get, lift.
  destruct (Encoding self) as [e|] eqn:Hes; [clear He|done].
  rewrite bool_decide_eq_false_2 by (intros H; by apply H). simpl.
  rewrite Hf. simpl.
  by rewrite bool_decide_eq_true_2.
Qed.

Lemma assign_frame a index b m' (r : nat) :
  assign cast_none a index b = Return m' →
  Forall (λ z, 0 ≤ z)%Z index →
  Z.of_nat r ∉ index →
  row_at (Some m') r = row_at a r.
Proof.
  intros (m&->&Hm)%assign_Return Hnn Hr. simpl.
  by eapply fancy_set_frame.
Qed.

Lemma assign_written a index b m' :
  assign cast_none a index b = Return m' →
  Forall (λ z, 0 ≤ z)%Z index →
  written_from index a b (Some m').
Proof.
  intros (m&->&Hm)%assign_Return Hnn x y [= <-] -> Hn Hc i z Hi Hlast.
  simpl. by eapply fancy_set_written.
Qed.

Lemma assign_spread a index b m' :
  assign cast_none a index b = Return m' →
  Forall (λ z, 0 ≤ z)%Z index →
  spread_from index a b (Some m').
Proof.
  intros (m&->&Hm)%assign_Return Hnn x y row [= <-] -> Hx Hc z Hz.
  simpl. by eapply fancy_set_spread.
Qed.

(** C5.  When the indexed assignment [self[index] = pop] completes, for an
    index sequence of 0-based indices, every row of every attribute of
    [self] whose index is not listed in [index] is what it was before; the
    rows listed are overwritten with the corresponding rows of [pop] (in
    the genotype when [self] has an encoding, in the constraint violations
    when [self] has them, in the objective values, the fitness and the
    phenotype always). *)
Theorem setitem_frame index pop self self' :
  __setitem__ cast_none Field_agree index pop self = (self', Return tt) →
  Forall (λ z, 0 ≤ z)%Z index →
  (∀ r : nat, Z.of_nat r ∉ index →
     Forall2 (λ a' a, row_at a' r = row_at a r)
             (attributes self') (attributes self)) ∧
  (Encoding self ≠ None →
     written_from index (Chrom self) (Chrom pop) (Chrom self')) ∧
  written_from index (ObjV self) (ObjV pop) (ObjV self') ∧
  written_from index (Some (FitnV self)) (Some (FitnV pop)) (Some (FitnV self')) ∧
  (CV self ≠ None →
     written_from index (CV self) (CV pop) (CV self')) ∧
  written_from index (Phen self) (Phen pop) (Phen self').
Proof.
  intros (c&o&f&v&ph&Hc&Ho&Hf&Hv&Hph&->)%setitem_Return Hnn. simpl.
  split_and!.
  - intros r Hr. apply attributes_Forall2. simpl. split_and!.
    + destruct (Encoding self); [|by subst].
      destruct Hc as (_&_&_&_&m'&Hm&->). by eapply assign_frame.
    + by eapply assign_frame.
    + by eapply (assign_frame (Some (FitnV self))).
    + destruct (CV self) eqn:Hcv; [|by subst].
      destruct Hv as (m'&Hm&->). by eapply assign_frame.
    + by eapply assign_frame.
  - intros He. destruct (Encoding self); [|done].
    destruct Hc as (_&_&_&_&m'&Hm&->). by eapply assign_written.
  - by eapply assign_written.
  - by eapply (assign_written (Some (FitnV self))).
  - intros Hcv. destruct (CV self); [|done].
    destruct Hv as (m'&Hm&->). by eapply assign_written.
  - by eapply assign_written.
Qed.

Lemma mapM_py_index_Raise (n : nat) index e :
  mapM (py_index n) index = Raise e → e = IndexError.
Proof.
  induction index as [|z index IH]; simpl; [done|].
  destruct (py_index n z) as [k|e'] eqn:Hz; simpl.
  - destruct (mapM (py_index n) index); simpl; [done|].
    intros [= <-]. by apply IH.
  - intros [= <-]. unfold py_index in Hz.
    repeat case_decide; congruence.
Qed.

(** The array assignment never raises one of the errors of the class. *)
Lemma fancy_set_Raise m index b e :
  fancy_set cast_none m index b = Raise e →
  e = TypeError ∨ e = ValueError ∨ e = IndexError.
Proof.
  unfold fancy_set.
  destruct (as_value cast_none b) as [x|e1] eqn:Hx; simpl.
  - destruct (broadcast (length index) (ncols m) x) as [rs|e2] eqn:Hrs; simpl.
    + destruct (mapM (py_index (nrows m)) index) as [ks|e3] eqn:Hks;
        simpl; [done|].
      intros [= <-]. right; right. by eapply mapM_py_index_Raise.
    + intros [= <-]. right; left. unfold broadcast, broadcast_axis in Hrs.
      repeat case_decide; simpl in Hrs; repeat case_decide; try done;
        destruct (rows x) as [|? [|]]; simpl in Hrs;
        repeat case_decide; congruence.
  - intros [= <-]. left. unfold as_value in Hx.
    destruct b; [done|]. destruct cast_none; congruence.
Qed.

Lemma assign_Raise a index b e :
  assign cast_none a index b = Raise e →
  e = TypeError ∨ e = ValueError ∨ e = IndexError.
Proof.
  destruct a as [m|]; simpl; [apply fancy_set_Raise|].
  intros [= <-]. by left.
Qed.

(** C10.  When [self] has no encoding, [self[index] = pop] makes none of
    the checks: whatever the length of [index], the size of [pop] and the
    presence of constraint violations on either side, it never raises one
    of the errors of the class.  When it completes, the objective values,
    the fitness and the phenotype of [self] are the results of the numpy
    assignments of the attributes of [pop] at [index], the genotype is left
    alone, and the size is the row count of the resulting phenotype.  The
    rows listed in [index] (0-based) hold the rows of [pop]: row
    [index[i]] of each of the three attributes is row [i] of the attribute
    of [pop] when that has one row per entry of [index], and, the size
    check not being made, the single row of [pop] in every listed row when
    [pop] has one row only. *)
Theorem setitem_without_encoding index pop self self' (r : result unit) :
  Encoding self = None →
  __setitem__ cast_none Field_agree index pop self = (self', r) →
  (∀ msg, r ≠ Raise (RuntimeError msg)) ∧
  (r = Return tt →
   (∃ o f ph,
      assign cast_none (ObjV self) index (ObjV pop) = Return o ∧
      fancy_set cast_none (FitnV self) index (Some (FitnV pop)) = Return f ∧
      assign cast_none (Phen self) index (Phen pop) = Return ph ∧
      ObjV self' = Some o ∧ FitnV self' = f ∧ Phen self' = Some ph ∧
      Chrom self' = Chrom self ∧
      sizes self' = Z.of_nat (nrows ph)) ∧
   (Forall (λ z, 0 ≤ z)%Z index →
    written_from index (ObjV self) (ObjV pop) (ObjV self') ∧
    written_from index (Some (FitnV self)) (Some (FitnV pop))
                 (Some (FitnV self')) ∧
    written_from index (Phen self) (Phen pop) (Phen self') ∧
    spread_from index (ObjV self) (ObjV pop) (ObjV self') ∧
    spread_from index (Some (FitnV self)) (Some (FitnV pop))
                (Some (FitnV self')) ∧
    spread_from index (Phen self) (Phen pop) (Phen self'))).
Proof.
  intros He H. split.
  - intros msg ->. revert H. unfold __setitem__.
    unfold mbind, mut_bind, get, lift, store, mret, mut_ret. rewrite He.
    destruct (assign cast_none (ObjV self) index (ObjV pop)) as [o|e] eqn:Ho.
    2: { intros [= _ ->]. by apply assign_Raise in Ho as [|[|]]. }
    destruct (fancy_set cast_none (FitnV self) index (Some (FitnV pop)))
      as [f|e] eqn:Hf.
    2: { intros [= _ ->]. by apply fancy_set_Raise in Hf as [|[|]]. }
    destruct (CV self) as [v0|] eqn:Hv0.
    + destruct (assign cast_none (Some v0) index (CV pop)) as [v|e] eqn:Hv.
      2: { intros [= _ ->]. by apply assign_Raise in Hv as [|[|]]. }
      destruct (assign cast_none (Phen self) index (Phen pop)) as [ph|e]
        eqn:Hph; [done|].
      intros [= _ ->]. by apply assign_Raise in Hph as [|[|]].
    + destruct (assign cast_none (Phen self) index (Phen pop)) as [ph|e]
        eqn:Hph; [done|].
      intros [= _ ->]. by apply assign_Raise in Hph as [|[|]].
  - intros ->. apply setitem_Return in H
      as (c&o&f&v&ph&Hc&Ho&Hf&Hv&Hph&->).
    rewrite He in Hc. subst c. split.
    + exists o, f, ph. by split_and!.
    + intros Hnn. simpl. split_and!.
      * by eapply assign_written.
      * by eapply (assign_written (Some (FitnV self))).
      * by eapply assign_written.
      * by eapply assign_spread.
      * by eapply (assign_spread (Some (FitnV self))).
      * by eapply assign_spread.
Qed.

(** [np.argsort] returns a permutation of the positions. *)
Lemma np_argsort_Permutation (u : list Q) :
  np_argsort u ≡ₚ seq 0 (length u).
Proof.
  unfold np_argsort. rewrite merge_sort_Permutation.
  rewrite snd_zip; [done|]. by rewrite length_seq.
Qed.

Lemma np_random_rand_Return (n : Z) :
  (0 ≤ n)%Z →
  ∃ u, np_random_rand rng n = Return u ∧ length u = Z.to_nat n.
Proof.
  intros Hn. unfold np_random_rand. rewrite decide_False by lia.
  eexists. split; [done|]. by rewrite length_fmap, length_seq.
Qed.

(** The rows gathered along a permutation of the positions are a
    permutation of the rows. *)
Lemma gather_Permutation a b (shuff : list nat) :
  shuff ≡ₚ seq 0 (length (rows_of a)) →
  (b = None ↔ a = None) →
  length (rows_of b) = length shuff →
  (∀ i k, shuff !! i = Some k → row_at b i = row_at a k) →
  rows_of b ≡ₚ rows_of a.
Proof.
  intros Hperm Hnone Hlen Hrows.
  destruct a as [m|]; [|by rewrite (proj2 Hnone)].
  destruct b as [m'|]; [|by discriminate (proj1 Hnone)].
  simpl in *. set (g := λ k, default [] (rows m !! k)).
  assert (H1 : rows m' = g <$> shuff).
  { apply list_eq. intros i. rewrite list_lookup_fmap.
    destruct (shuff !! i) as [k|] eqn:Hk; simpl.
    - rewrite (Hrows i k Hk). unfold g.
      assert (k ∈ seq 0 (length (rows m))) as Hin.
      { rewrite <- Hperm. by eapply list_elem_of_lookup_2. }
      apply elem_of_seq in Hin.
      destruct (lookup_lt_is_Some_2 (rows m) k) as [r Hr]; [lia|].
      by rewrite Hr.
    - apply lookup_ge_None. rewrite Hlen. by apply lookup_ge_None. }
  assert (H2 : rows m = g <$> seq 0 (length (rows m))).
  { apply list_eq. intros i. rewrite list_lookup_fmap.
    destruct (decide (i < length (rows m))) as [Hi|Hi].
    - rewrite lookup_seq_lt by done. simpl. unfold g.
      destruct (lookup_lt_is_Some_2 (rows m) i) as [r Hr]; [done|].
      by rewrite Hr.
    - rewrite lookup_seq_ge by lia. simpl. apply lookup_ge_None. lia. }
  rewrite H1, H2 at 1. by apply fmap_Permutation.
Qed.

(** C6 (as amended).  On every initialized, row-aligned population with a
    phenotype, [shuffle] completes and applies one permutation [shuff] of
    the [sizes] positions to every present attribute: row [i] of each
    attribute afterwards is row [shuff[i]] of that attribute before, so
    the rows of one individual stay together; the rows of every attribute
    are a permutation of its rows before; absent attributes stay absent
    and the size is unchanged. *)
Theorem shuffle_permutes_rows self :
  initialized self → Phen self ≠ None → row_aligned self →
  ∃ shuff self',
    shuffle rng self = (self', Return tt) ∧
    shuff ≡ₚ seq 0 (Z.to_nat (sizes self)) ∧
    sizes self' = sizes self ∧
    Forall2 (λ a' a, (a' = None ↔ a = None) ∧
                     rows_of a' ≡ₚ rows_of a ∧
                     ∀ i k, shuff !! i = Some k → row_at a' i = row_at a k)
            (attributes self') (attributes self).
Proof.
  intros [Hsc Hinit] HPhen Hal.
  pose proof Hal as (HC&HO&HF&HV&HP)%row_aligned_iff.
  assert (Hnn : (0 ≤ sizes self)%Z) by lia.
  destruct (np_random_rand_Return _ Hnn) as (u&Hu&Hlen).
  set (shuff := np_argsort u).
  assert (Hperm : shuff ≡ₚ seq 0 (Z.to_nat (sizes self))).
  { rewrite <- Hlen. apply np_argsort_Permutation. }
  assert (Hidx : Forall (λ z, 0 ≤ z < sizes self)%Z (Z.of_nat <$> shuff)).
  { apply Forall_fmap, Forall_forall. intros k Hk. simpl.
    rewrite Hperm in Hk. apply elem_of_seq in Hk. lia. }
  assert (Hgather : ∀ a, has_rows (sizes self) a →
    ∃ b, subscript_if_present a (Z.of_nat <$> shuff) = Return b ∧
         (b = None ↔ a = None) ∧ rows_of b ≡ₚ rows_of a ∧
         ∀ i k, shuff !! i = Some k → row_at b i = row_at a k).
  { intros a Ha.
    destruct (subscript_if_present_valid _ _ _ Ha Hidx) as (b&Hb&Hb0&Hbn&_&Hbr).
    assert (Hrows : ∀ i k, shuff !! i = Some k → row_at b i = row_at a k).
    { intros i k Hk. rewrite (Hbr i (Z.of_nat k)), ?Nat2Z.id; [done|].
      by rewrite list_lookup_fmap, Hk. }
    exists b. split_and!; try done.
    destruct a as [m|]; [|by rewrite (proj2 Hb0)].
    destruct b as [m'|]; [|by discriminate (proj1 Hb0)].
    apply (gather_Permutation _ _ shuff); try done.
    - simpl in *. unfold nrows in Ha. rewrite Hperm.
      replace (Z.to_nat (sizes self)) with (length (rows m)) by lia. done.
    - simpl in *. unfold nrows in Hbn. rewrite length_fmap in Hbn. lia. }
  destruct (Hgather _ HC) as (c&Hc&Hc0&Hcp&Hcr).
  destruct (Hgather _ HO) as (o&Ho&Ho0&Hop&Hor).
  destruct (Hgather (Some (FitnV self)) HF) as (f'&Hf&Hf0&Hfp&Hfr).
  destruct (Hgather _ HV) as (v&Hv&Hv0&Hvp&Hvr).
  destruct (Hgather _ HP) as (ph'&Hph&Hph0&Hphp&Hphr).
  apply fmap_Return in Hf as (f&Hf&->).
  destruct (Phen self) as [ph|] eqn:HPh; [clear HPhen|done].
  apply fmap_Return in Hph as (ph2&Hph&->).
  exists shuff.
  exists (mkPopulation (sizes self) (Encoding self) (Field self) c
            (Lind self) o f v (Some ph2)).
  split_and!; [|done|done|].
  - unfold shuffle, mbind, mut_bind, get, lift, store.
    rewrite Hu. fold shuff. unfold scheme_consistent in Hsc.
    destruct (Encoding self) as [e|] eqn:He.
    + destruct (Chrom self) as [m|] eqn:HCh; [|by destruct Hinit].
      apply fmap_Return in Hc as (m'&Hm'&->). simpl. rewrite Hm'.
      rewrite Ho, Hf, Hv. rewrite HPh. simpl. rewrite Hph.
      unfold set_Phen, set_CV, set_FitnV, set_ObjV, set_Chrom. simpl.
      by rewrite He.
    + destruct Hsc as [_ HCh]. rewrite HCh in Hc. injection Hc as <-.
      rewrite Ho, Hf, Hv. rewrite HPh. simpl. rewrite Hph.
      unfold set_Phen, set_CV, set_FitnV, set_ObjV, set_Chrom. simpl.
      by rewrite He.
  - apply attributes_Forall2. simpl. rewrite HPh. by split_and!.
Qed.

Lemma np_vstack_Return a b m :
  np_vstack py_none a b = Return m →
  rows m = rows (atleast_2d py_none a) ++ rows (atleast_2d py_none b).
Proof. unfold np_vstack. case_decide; [|done]. by intros [= <-]. Qed.

(** What a completed merge returns. *)
Lemma add_Return self pop q :
  __add__ one py_none Field_agree self pop = Return q →
  ∃ c o f v ph,
    match Encoding self with
    | Some _ => Chrom self ≠ None ∧ Chrom pop ≠ None ∧
                ∃ m, np_vstack py_none (Chrom self) (Chrom pop) = Return m ∧
                     c = Some m
    | None => c = None
    end ∧
    np_vstack py_none (ObjV self) (ObjV pop) = Return o ∧
    np_vstack py_none (Some (FitnV self)) (Some (FitnV pop)) = Return f ∧
    match CV self with
    | Some _ => ∃ m, np_vstack py_none (CV self) (CV pop) = Return m ∧
                     v = Some m
    | None => v = None
    end ∧
    np_vstack py_none (Phen self) (Phen pop) = Return ph ∧
    sizes q = (sizes self + sizes pop)%Z ∧
    Chrom q = c ∧ ObjV q = Some o ∧ FitnV q = f ∧ CV q = v ∧
    Phen q = Some ph.
Proof.
  unfold __add__.
  intros (c&Hc&(o&Ho&(f&Hf&(v&Hv&(ph&Hph&Hq)%bind_Return)%bind_Return)
            %bind_Return)%bind_Return)%bind_Return.
  apply init_Return in Hq as (_&_&->). simpl.
  exists c, o, f, v, ph. split_and!; try done.
  - destruct (Encoding self) as [e|]; [|by injection Hc as <-].
    apply bind_Return in Hc as (_&_&Hc).
    apply bind_Return in Hc as (_&_&Hc).
    apply bind_Return in Hc as (_&Hn%raise_if_Return&Hc).
    apply bind_Return in Hc as (_&_&Hc).
    apply fmap_Return in Hc as (m&Hm&->).
    apply bool_decide_eq_false in Hn.
    split_and!; [tauto|tauto|by exists m].
  - destruct (CV self); [|by injection Hv as <-].
    apply fmap_Return in Hv as (m'&Hm&->). by exists m'.
  - destruct (Encoding self) as [e|]; [done|]. by injection Hc as <-.
Qed.

(** What a completed [initChrom] leaves. *)
Lemma initChrom_Return NIND self self' :
  initChrom one crtpc bs2ri NIND self = (self', Return tt) →
  ∃ c f ph,
    let n := default (sizes self) NIND in
    crtpc (Encoding self) n (Field self) = Return c ∧
    np_ones one n 1 = Return f ∧
    decoding bs2ri (mkPopulation n (Encoding self) (Field self) (Some c)
                      (ncols c) None f None (Phen self)) = Return ph ∧
    self' = mkPopulation n (Encoding self) (Field self) (Some c)
              (ncols c) None f None (Some ph).
Proof.
  unfold initChrom. intros H.
  apply mut_bind_Return in H as ([]&s1&Hs1&H).
  apply mut_bind_Return in H as (s0&?&[= <- <-]&H).
  apply mut_bind_Return in H as (c&?&[Hc ->]%lift_Return&H).
  apply mut_bind_Return in H as ([]&?&[= <-]&H).
  apply mut_bind_Return in H as ([]&?&[= <-]&H).
  apply mut_bind_Return in H as ([]&?&[= <-]&H).
  apply mut_bind_Return in H as (f&?&[Hf ->]%lift_Return&H).
  apply mut_bind_Return in H as ([]&?&[= <-]&H).
  apply mut_bind_Return in H as ([]&?&[= <-]&H).
  apply mut_bind_Return in H as (s2&?&[= <- <-]&H).
  apply mut_bind_Return in H as (ph&?&[Hph ->]%lift_Return&H).
  injection H as <-.
  assert (s1 = set_sizes (default (sizes self) NIND) self) as ->.
  { destruct NIND as [n|]; simpl in *; injection Hs1 as <-; [done|].
    by destruct self. }
  exists c, f, ph. simpl in *. by split_and!.
Qed.

(** What a completed [shuffle] leaves: every present attribute gathered by
    the same index sequence, which has [sizes] entries. *)
Lemma shuffle_Return self self' :
  shuffle rng self = (self', Return tt) →
  ∃ (shuff : list Z) c o f v ph,
    Z.of_nat (length shuff) = sizes self ∧
    match Encoding self with
    | Some _ => ∃ m, subscript (Chrom self) shuff = Return m ∧ c = Some m
    | None => c = None
    end ∧
    subscript_if_present (ObjV self) shuff = Return o ∧
    fancy_get (FitnV self) shuff = Return f ∧
    subscript_if_present (CV self) shuff = Return v ∧
    subscript (Phen self) shuff = Return ph ∧
    self' = mkPopulation (sizes self) (Encoding self) (Field self) c
              (Lind self) o f v (Some ph).
Proof.
  unfold shuffle. intros H.
  apply mut_bind_Return in H as (s0&?&[= <- <-]&H).
  apply mut_bind_Return in H as (u&?&[Hu ->]%lift_Return&H).
  apply mut_bind_Return in H as ([]&s1&Hs1&H).
  apply mut_bind_Return in H as (o&?&[Ho ->]%lift_Return&H).
  apply mut_bind_Return in H as ([]&?&[= <-]&H).
  apply mut_bind_Return in H as (f&?&[Hf ->]%lift_Return&H).
  apply mut_bind_Return in H as ([]&?&[= <-]&H).
  apply mut_bind_Return in H as (v&?&[Hv ->]%lift_Return&H).
  apply mut_bind_Return in H as ([]&?&[= <-]&H).
  apply mut_bind_Return in H as (ph&?&[Hph ->]%lift_Return&H).
  injection H as <-.
  exists (Z.of_nat <$> np_argsort u).
  assert (∃ c, s1 = set_Chrom c self ∧
    match Encoding self with
    | Some _ => ∃ m, subscript (Chrom self) (Z.of_nat <$> np_argsort u)
                     = Return m ∧ c = Some m
    | None => c = None
    end) as (c&->&Hc).
  { destruct (Encoding self) as [e|].
    - apply mut_bind_Return in Hs1 as ([]&?&[_ ->]%lift_Return&Hs1).
      apply mut_bind_Return in Hs1 as (m&?&[Hm ->]%lift_Return&Hs1).
      injection Hs1 as <-. exists (Some m). split; [done|]. by exists m.
    - injection Hs1 as <-. by exists None. }
  exists c, o, f, v, ph. split_and!; try done.
  unfold np_random_rand in Hu. case_decide; [done|]. injection Hu as <-.
  rewrite length_fmap.
  rewrite (Permutation_length (np_argsort_Permutation _)).
  rewrite length_seq, length_fmap, length_seq. lia.
Qed.

Lemma subscript_if_present_rows a index b :
  subscript_if_present a index = Return b →
  has_rows (Z.of_nat (length index)) b.
Proof.
  intros H%subscript_if_present_Return.
  destruct a as [m|]; [|by subst].
  destruct H as (m'&Hm'&->). simpl. f_equal. by eapply fancy_get_nrows.
Qed.

Lemma subscript_rows a index m :
  subscript a index = Return m → nrows m = length index.
Proof. destruct a; [apply fancy_get_nrows|done]. Qed.

Lemma assign_rows (n : Z) a index b m' :
  has_rows n a →
  assign cast_none a index b = Return m' →
  Z.of_nat (nrows m') = n.
Proof.
  intros Ha (m&->&[Hm _]%fancy_set_shape)%assign_Return. simpl in Ha.
  by rewrite Hm.
Qed.

(** C1 (as amended).  The constructor does not compare the row counts of
    its matrix arguments with [NIND]; it stores them as they are.  Every
    population that a public operation completes with is row-aligned
    provided that the constructor is given matrices of [NIND] rows, that
    indexed assignment and merge are applied to row-aligned populations,
    merge moreover to populations that carry objective values and a
    phenotype (and constraint violations on the right when on the left),
    and that the chromosome generator and the codec return one row per
    individual. *)
Theorem produced_row_aligned q :
  generator_contract crtpc → codec_contract bs2ri →
  produced one py_none cast_none Field_agree crtpc bs2ri rng q →
  row_aligned q.
Proof.
  intros Hgen Hcodec Hq. apply row_aligned_iff.
  destruct Hq as [E F N C O Fi V P q Hrows Hq
                 | p NIND q Hq
                 | p index q Hq
                 | p index pop q Hal Hq
                 | p1 p2 q Hal1 Hal2 HO1 HO2 HP1 HP2 HV Hq
                 | p q Hq].
  - apply init_Return in Hq as (Hn&_&->). simpl.
    rewrite !Forall_cons in Hrows. destruct Hrows as (HC&HO&HF&HV&HP&_).
    split_and!; try done.
    + by destruct E.
    + destruct Fi as [fi|]; simpl in *; [done|].
      unfold nrows. simpl. rewrite length_replicate. lia.
  - apply initChrom_Return in Hq as (c&f&ph&Hc&Hf&Hph&->). simpl in *.
    apply Hgen in Hc. unfold np_ones in Hf. case_decide; [done|].
    injection Hf as <-. unfold nrows at 2. simpl. rewrite length_replicate.
    split_and!; try done; [lia|].
    unfold decoding in Hph. simpl in Hph. repeat case_decide.
    + apply Hcodec in Hph. by rewrite Hph.
    + by injection Hph as <-.
    + done.
  - apply getitem_Return in Hq as (c&o&f&v&ph&Hc&Hf&Ho&Hv&Hph&->). simpl.
    apply fancy_get_nrows in Hf. rewrite Hf.
    apply subscript_if_present_rows in Ho, Hv. apply subscript_rows in Hph.
    split_and!; try done; [|by rewrite Hph].
    destruct (Encoding p); [|by subst].
    destruct Hc as (_&m&Hm&(m'&Hm'&->)%fmap_Return). simpl.
    f_equal. by eapply fancy_get_nrows.
  - apply row_aligned_iff in Hal as (HC&HO&HF&HV&HP).
    apply setitem_Return in Hq as (c&o&f&v&ph&Hc&Ho&Hf&Hv&Hph&->). simpl.
    pose proof (assign_rows _ _ _ _ _ HP Hph) as Hn. rewrite Hn.
    split_and!.
    + destruct (Encoding p); [|by subst].
      destruct Hc as (_&_&_&_&m&Hm&->). simpl.
      exact (assign_rows _ _ _ _ _ HC Hm).
    + exact (assign_rows _ _ _ _ _ HO Ho).
    + exact (assign_rows _ (Some (FitnV p)) _ _ _ HF Hf).
    + destruct (CV p) eqn:HCV; [|by subst].
      destruct Hv as (m'&Hm&->). simpl.
      exact (assign_rows _ _ _ _ _ HV Hm).
    + done.
  - apply row_aligned_iff in Hal1 as (HC1&HO1'&HF1&HV1&HP1').
    apply row_aligned_iff in Hal2 as (HC2&HO2'&HF2&HV2&HP2').
    apply add_Return in Hq
      as (c&o&f&v&ph&Hc&Ho&Hf&Hv&Hph&-> & -> & -> & -> & -> & ->).
    apply np_vstack_Return in Ho, Hf, Hph.
    destruct (ObjV p1) as [o1|], (ObjV p2) as [o2|],
      (Phen p1) as [ph1|], (Phen p2) as [ph2|]; try done.
    simpl in *. unfold nrows in *. simpl in *.
    rewrite Ho, Hf, Hph, !length_app.
    split_and!; try lia.
    + destruct (Encoding p1); [|by subst].
      destruct Hc as (Hc1&Hc2&m&Hm%np_vstack_Return&->).
      destruct (Chrom p1), (Chrom p2); try done. simpl in *.
      unfold nrows in *. rewrite Hm, length_app. lia.
    + destruct (CV p1) as [v1|]; [|by subst].
      destruct Hv as (m&Hm%np_vstack_Return&->).
      destruct (CV p2) as [v2|]; [|by destruct HV]. simpl in *.
      unfold nrows in *. rewrite Hm, length_app. lia.
  - apply shuffle_Return in Hq
      as (shuff&c&o&f&v&ph&Hlen&Hc&Ho&Hf&Hv&Hph&->). simpl.
    rewrite <- Hlen.
    apply fancy_get_nrows in Hf.
    apply subscript_if_present_rows in Ho, Hv. apply subscript_rows in Hph.
    split_and!; try done; [|by rewrite Hf|by rewrite Hph].
    destruct (Encoding p); [|by subst].
    destruct Hc as (m&Hm%subscript_rows&->). simpl. by rewrite Hm.
Qed.

(** ** Further properties of the constructor, [copy] and the indexed view *)

(** X1.  The outcome of the constructor.  The size error is the only error
    of the class that it raises, and it raises it exactly when [NIND] is
    negative, whatever the other arguments are.  With a size that is not
    negative, an encoding without a decode field raises [AttributeError].
    When a fitness is passed, the constructor returns exactly when [NIND]
    is not negative and a decode field comes with the encoding. *)
Theorem init_outcome E (F : option field) (N : Z) C O Fi V P :
  (∀ msg, __init__ one E F N C O Fi V P = Raise (RuntimeError msg) ↔
          (N < 0)%Z ∧ msg = Size_error) ∧
  ((0 ≤ N)%Z → E ≠ None → F = None →
   __init__ one E F N C O Fi V P = Raise AttributeError) ∧
  (is_Some Fi →
   ((∃ q, __init__ one E F N C O Fi V P = Return q) ↔
    (0 ≤ N)%Z ∧ (E ≠ None → F ≠ None))).
Proof.
  split_and!.
  - intros msg. unfold __init__, raise_if, np_ones.
    destruct (decide (0 ≤ N)%Z) as [Hn|Hn].
    + rewrite bool_decide_eq_true_2 by done. simpl. split; [|lia].
      destruct E as [e|], F as [f|], Fi as [fi|]; simpl; try done;
        case_decide; done.
    + rewrite bool_decide_eq_false_2 by done. simpl. split.
      * intros [= <-]. split; [lia|done].
      * by intros [_ ->].
  - intros Hn HE ->. unfold __init__, raise_if.
    rewrite bool_decide_eq_true_2 by done. simpl.
    by destruct E.
  - intros [fi ->]. split.
    + intros [q (Hn&HF&_)%init_Return]. by split.
    + intros [Hn HF]. eexists. apply init_Return. by split_and!.
Qed.

(** What [copy] returns: every attribute of [self], with [Lind] computed
    anew from the genotype. *)
Lemma copy_Return self q :
  copy one self = Return q ↔
  (0 ≤ sizes self)%Z ∧ (Encoding self ≠ None → Field self ≠ None) ∧
  q = mkPopulation (sizes self) (Encoding self)
        (if Encoding self is Some _ then Field self else None)
        (if Encoding self is Some _ then Chrom self else None)
        (from_option ncols 0 (Chrom self))
        (ObjV self) (FitnV self) (CV self) (Phen self).
Proof. unfold copy. by rewrite init_Return. Qed.

(** X2.  [copy] returns a population equal to [self] exactly when the size
    of [self] is not negative, [self] is scheme-consistent and its [Lind] is
    the column count of its genotype. *)
Theorem copy_is_self self :
  copy one self = Return self ↔
  (0 ≤ sizes self)%Z ∧ scheme_consistent self ∧ lind_consistent self.
Proof.
  rewrite copy_Return. unfold scheme_consistent, lind_consistent.
  destruct self as [s e f c l o fi v ph]. simpl. split.
  - intros (Hs&Hf&[= Hf' Hc' Hl]). split; [done|].
    destruct e; [by auto|]. by subst.
  - intros (Hs&Hsc&->). split; [done|].
    destruct e; [by split|]. by destruct Hsc as [-> ->].
Qed.

(** X3.  The size of a view is the length of the index sequence, whenever
    the view returns. *)
Theorem getitem_len self index q :
  __getitem__ one self index = Return q →
  __len__ q = Z.of_nat (length index).
Proof.
  intros (c&o&f&v&ph&_&Hf&_&_&_&->)%getitem_Return. unfold __len__. simpl.
  f_equal. by eapply fancy_get_nrows.
Qed.

(** X4.  A view keeps the scheme and the column counts: it has the encoding
    of [self], a scheme-consistent decode field, attributes with the columns
    of those of [self], and a [Lind] that is the column count of its
    genotype. *)
Theorem getitem_scheme self index q :
  __getitem__ one self index = Return q →
  Encoding q = Encoding self ∧ scheme_consistent q ∧ lind_consistent q ∧
  (Encoding self ≠ None → Field q = Field self ∧
                         Lind q = from_option ncols 0 (Chrom self)) ∧
  ncols (FitnV q) = ncols (FitnV self) ∧
  (ncols <$> ObjV q) = (ncols <$> ObjV self) ∧
  (ncols <$> CV q) = (ncols <$> CV self) ∧
  (ncols <$> Phen q) = (ncols <$> Phen self).
Proof.
  intros (c&o&f&v&ph&Hc&Hf&Ho&Hv&Hph&->)%getitem_Return.
  unfold scheme_consistent, lind_consistent. simpl.
  apply subscript_if_present_Return in Ho, Hv.
  split_and!; try done.
  - destruct (Encoding self); [by destruct Hc|by subst].
  - intros He. destruct (Encoding self) as [e|]; [|done].
    destruct Hc as (_&m&->&(m'&Hm'&->)%fmap_Return). simpl.
    split; [done|]. by eapply fancy_get_ncols.
  - by eapply fancy_get_ncols.
  - destruct (ObjV self); [|by subst]. destruct Ho as (m'&Hm'&->). simpl.
    f_equal. by eapply fancy_get_ncols.
  - destruct (CV self); [|by subst]. destruct Hv as (m'&Hm'&->). simpl.
    f_equal. by eapply fancy_get_ncols.
  - destruct (Phen self); [|done]. simpl in *. f_equal.
    by eapply fancy_get_ncols.
Qed.

Lemma mapM_ext_Forall {A B} (f g : A → result B) (l : list A) :
  Forall (λ x, f x = g x) l → mapM f l = mapM g l.
Proof.
  induction 1 as [|x l Hx _ IH]; simpl; [done|]. by rewrite Hx, IH.
Qed.

Lemma mapM_result_fmap {A B C} (f : B → result C) (h : A → B) (l : list A) :
  mapM f (h <$> l) = mapM (λ x, f (h x)) l.
Proof.
  induction l as [|x l IH]; [done|].
  change (f (h x) ≫= (λ y, mapM f (h <$> l) ≫= λ k, mret (y :: k))
          = f (h x) ≫= (λ y, mapM (λ x, f (h x)) l ≫= λ k, mret (y :: k))).
  by rewrite IH.
Qed.

Lemma row_of_Raise m (z : Z) e : row_of m z = Raise e → e = IndexError.
Proof.
  unfold row_of, py_index. repeat case_decide; simpl.
  - destruct (rows m !! _); [done|]. by intros [= <-].
  - destruct (rows m !! _); [done|]. by intros [= <-].
  - by intros [= <-].
Qed.

Lemma row_of_out_of_range m (z : Z) :
  ¬ (- Z.of_nat (nrows m) ≤ z < Z.of_nat (nrows m))%Z →
  row_of m z = Raise IndexError.
Proof.
  intros Hz. unfold row_of, py_index.
  rewrite decide_False by lia. by rewrite decide_False by lia.
Qed.

(** A gather with an index out of range raises [IndexError]. *)
Lemma fancy_get_out_of_range m index :
  Exists (λ z, ¬ (- Z.of_nat (nrows m) ≤ z < Z.of_nat (nrows m))%Z) index →
  fancy_get m index = Raise IndexError.
Proof.
  intros Hex. unfold fancy_get.
  assert (mapM (row_of m) index = Raise IndexError) as ->; [|done].
  induction Hex as [z index Hz|z index _ IH]; simpl.
  - by rewrite row_of_out_of_range.
  - destruct (row_of m z) as [r|e] eqn:Hr; simpl.
    + by rewrite IH.
    + by rewrite (row_of_Raise _ _ _ Hr).
Qed.

(** X5.  On a row-aligned population that has its genotype if it has an
    encoding, a view by an index sequence with an entry outside
    [-sizes .. sizes - 1] raises [IndexError]. *)
Theorem getitem_out_of_range self index :
  row_aligned self →
  (Encoding self ≠ None → Chrom self ≠ None) →
  Exists (λ z, ¬ (- sizes self ≤ z < sizes self)%Z) index →
  __getitem__ one self index = Raise IndexError.
Proof.
  intros (HC&_&HF&_)%row_aligned_iff Hinit Hex. unfold __getitem__.
  destruct (Encoding self) as [e|].
  - destruct (Chrom self) as [m|]; [|by destruct Hinit]. simpl in *.
    rewrite (fancy_get_out_of_range m); [reflexivity|]. by rewrite HC.
  - simpl. rewrite fancy_get_out_of_range; [reflexivity|]. by rewrite HF.
Qed.

(** X6.  The view by the empty index sequence of an initialized population
    with a phenotype is a population of size 0: every present attribute is
    present with no rows and the same columns.  The rows of [self] need not
    be aligned for it. *)
Theorem getitem_empty self :
  initialized self → Phen self ≠ None →
  ∃ q, __getitem__ one self [] = Return q ∧
       sizes q = 0%Z ∧
       Forall2 (λ b a, shape b = (λ m, (0, ncols m)) <$> a)
               (attributes q) (attributes self).
Proof.
  intros [Hsc Hinit] HPhen. unfold scheme_consistent in Hsc.
  destruct (Phen self) as [ph|] eqn:HPh; [clear HPhen|done].
  eexists. split.
  - apply getitem_Return.
    exists ((λ m, Matrix (ncols m) []) <$> Chrom self),
           ((λ m, Matrix (ncols m) []) <$> ObjV self),
           (Matrix (ncols (FitnV self)) []),
           ((λ m, Matrix (ncols m) []) <$> CV self),
           (Matrix (ncols ph) []).
    rewrite HPh. split_and!; try done.
    + destruct (Encoding self).
      * split; [done|]. destruct (Chrom self) as [m|]; [|by destruct Hinit].
        by exists m.
      * by destruct Hsc as [_ ->].
    + by destruct (ObjV self).
    + by destruct (CV self).
  - simpl. split; [done|]. apply attributes_Forall2. simpl. rewrite HPh.
    split_and!; try done.
    + by destruct (Chrom self).
    + by destruct (ObjV self).
    + by destruct (CV self).
Qed.

Lemma row_of_signed m (z : Z) :
  (- Z.of_nat (nrows m) ≤ z < Z.of_nat (nrows m))%Z →
  row_of m z = row_of m (z mod Z.of_nat (nrows m)).
Proof.
  intros Hz. unfold row_of. f_equal. unfold py_index.
  destruct (decide (0 ≤ z)%Z) as [Hnn|Hneg].
  - by rewrite Z.mod_small by lia.
  - replace (z mod Z.of_nat (nrows m))%Z with (z + Z.of_nat (nrows m))%Z.
    + rewrite (decide_False (P := (0 ≤ z < _)%Z)) by lia.
      rewrite decide_True by lia.
      rewrite (decide_True (P := (0 ≤ z + _ < _)%Z)) by lia. done.
    + symmetry. rewrite <- (Z.mod_add z 1) by lia.
      rewrite Z.mul_1_l. apply Z.mod_small. lia.
Qed.

Lemma fancy_get_signed m index :
  Forall (λ z, - Z.of_nat (nrows m) ≤ z < Z.of_nat (nrows m))%Z index →
  fancy_get m index
  = fancy_get m ((λ z, z mod Z.of_nat (nrows m))%Z <$> index).
Proof.
  intros Hidx. unfold fancy_get. f_equal.
  rewrite mapM_result_fmap. apply mapM_ext_Forall.
  eapply Forall_impl; [exact Hidx|]. intros z Hz. by apply row_of_signed.
Qed.

(** X7.  Indices of a view may be negative and then count from the last
    individual: on a row-aligned population, the view by indices in
    [-sizes .. sizes - 1] is the view by these indices taken modulo
    [sizes]. *)
Theorem getitem_signed_index self index :
  row_aligned self →
  Forall (λ z, - sizes self ≤ z < sizes self)%Z index →
  __getitem__ one self index
  = __getitem__ one self ((λ z, z mod sizes self)%Z <$> index).
Proof.
  intros (HC&HO&HF&HV&HP)%row_aligned_iff Hidx.
  assert (Hsub : ∀ a, has_rows (sizes self) a →
    subscript a index = subscript a ((λ z, z mod sizes self)%Z <$> index) ∧
    subscript_if_present a index
    = subscript_if_present a ((λ z, z mod sizes self)%Z <$> index)).
  { intros [m|] Ha; simpl in *; [|done]. rewrite <- Ha in Hidx |- *.
    by rewrite <- fancy_get_signed. }
  unfold __getitem__.
  rewrite <- (proj1 (Hsub _ HC)), <- (proj2 (Hsub _ HO)),
    <- (proj2 (Hsub _ HV)), <- (proj1 (Hsub _ HP)).
  destruct (Hsub (Some (FitnV self)) HF) as [HFs _]. simpl in HFs.
  by rewrite <- HFs.
Qed.

Lemma mapM_cons {A B} (f : A → result B) (x : A) (l : list A) :
  mapM f (x :: l) = f x ≫= λ y, mapM f l ≫= λ k, mret (y :: k).
Proof. reflexivity. Qed.

Lemma fancy_get_compose m (index1 index2 : list Z) m1 :
  fancy_get m index1 = Return m1 →
  Forall (λ j, 0 ≤ j < Z.of_nat (length index1))%Z index2 →
  fancy_get m1 index2 = fancy_get m (compose_index index1 index2).
Proof.
  intros Hm1 Hidx. pose proof (fancy_get_nrows _ _ _ Hm1) as Hn.
  apply fancy_get_Return in Hm1 as [Hc Hrows].
  unfold fancy_get. rewrite Hc. f_equal.
  induction Hidx as [|j index2 Hj _ IH]; [done|].
  destruct (lookup_lt_is_Some_2 index1 (Z.to_nat j)) as [z Hz]; [lia|].
  destruct (Forall2_lookup_l _ _ _ _ _ Hrows Hz) as (r&Hr&Hzr).
  assert (compose_index index1 (j :: index2)
          = z :: compose_index index1 index2) as ->.
  { unfold compose_index. simpl. by rewrite Hz. }
  destruct (row_of_nonneg m1 j) as (r'&Hr'&Hl); [lia|].
  rewrite !mapM_cons, Hzr, Hr', IH. by replace r' with r by congruence.
Qed.

(** X8.  A view of a view is a view: when [self[index1]] returns [q1] and
    the entries of [index2] are positions of [index1], then [q1[index2]] is
    [self[index]] for the sequence [index] whose entry [j] is
    [index1[index2[j]]]. *)
Theorem getitem_compose self (index1 index2 : list Z) q1 :
  __getitem__ one self index1 = Return q1 →
  Forall (λ j, 0 ≤ j < Z.of_nat (length index1))%Z index2 →
  __getitem__ one q1 index2
  = __getitem__ one self (compose_index index1 index2).
Proof.
  intros (c&o&f&v&ph&Hc&Hf&Ho&Hv&Hph&->)%getitem_Return Hidx.
  apply subscript_if_present_Return in Ho, Hv.
  unfold __getitem__. simpl.
  rewrite (fancy_get_compose _ _ _ _ Hf Hidx).
  assert (Hsub : ∀ a b, match a with
                        | Some m => ∃ m', fancy_get m index1 = Return m' ∧
                                          b = Some m'
                        | None => b = None
                        end →
      subscript_if_present b index2
      = subscript_if_present a (compose_index index1 index2)).
  { intros [m|] b Hb; [|by subst]. destruct Hb as (m'&Hm'&->). simpl.
    by rewrite (fancy_get_compose _ _ _ _ Hm' Hidx). }
  rewrite (Hsub _ _ Ho), (Hsub _ _ Hv).
  destruct (Phen self) as [mp|]; [|done]. simpl in Hph. simpl.
  rewrite (fancy_get_compose _ _ _ _ Hph Hidx).
  destruct (Encoding self) as [e|].
  - destruct Hc as (_&m&->&(m'&Hm'&->)%fmap_Return). simpl.
    by rewrite (fancy_get_compose _ _ _ _ Hm' Hidx).
  - subst c. reflexivity.
Qed.

(** A gather by all the positions in order returns the matrix. *)
Lemma fancy_get_arange m :
  fancy_get m (arange 0 (nrows m)) = Return m.
Proof.
  apply fancy_get_Return. split; [done|]. unfold arange.
  apply Forall2_fmap_l, Forall2_same_length_lookup_2.
  - by rewrite length_seq.
  - intros i k r [-> Hi]%lookup_seq Hr. simpl.
    apply row_of_Return. exists i. split; [|done].
    rewrite py_index_nonneg by lia. by rewrite Nat2Z.id.
Qed.

(** X9.  The view of all individuals in order is a copy: on an initialized,
    row-aligned population with a phenotype, [self[[0, ..., sizes - 1]]] is
    [self.copy()]. *)
Theorem getitem_arange_is_copy self :
  initialized self → Phen self ≠ None → row_aligned self →
  __getitem__ one self (arange 0 (Z.to_nat (sizes self))) = copy one self.
Proof.
  intros [Hsc Hinit] HPhen (HC&HO&HF&HV&HP)%row_aligned_iff.
  assert (Hsub : ∀ a, has_rows (sizes self) a →
    subscript_if_present a (arange 0 (Z.to_nat (sizes self))) = Return a).
  { intros [m|] Ha; simpl in *; [|done]. rewrite <- Ha, Nat2Z.id.
    by rewrite fancy_get_arange. }
  unfold __getitem__, copy.
  rewrite (Hsub _ HO), (Hsub _ HV).
  pose proof (Hsub (Some (FitnV self)) HF) as HFs. simpl in HFs.
  apply fmap_Return in HFs as (f&HFs&[= <-]). rewrite HFs.
  destruct (Phen self) as [ph|]; [|done].
  pose proof (Hsub (Some ph) HP) as HPs. simpl in HPs.
  apply fmap_Return in HPs as (ph'&HPs&[= <-]). simpl. rewrite HPs. simpl.
  rewrite HF. unfold scheme_consistent in Hsc.
  destruct (Encoding self) as [e|].
  - destruct (Chrom self) as [m|]; [|by destruct Hinit].
    pose proof (Hsub (Some m) HC) as HCs. simpl in HCs.
    apply fmap_Return in HCs as (m'&HCs&[= <-]). simpl. by rewrite HCs.
  - destruct Hsc as [_ ->]. done.
Qed.

(** ** Further properties of the merge *)

Lemma np_vstack_Raise a b e :
  np_vstack py_none a b = Raise e → e = ValueError.
Proof. unfold np_vstack. case_decide; [done|]. by intros [= <-]. Qed.

Lemma np_vstack_Return_eq a b m :
  np_vstack py_none a b = Return m ↔
  ncols (atleast_2d py_none a) = ncols (atleast_2d py_none b) ∧
  m = Matrix (ncols (atleast_2d py_none a))
        (rows (atleast_2d py_none a) ++ rows (atleast_2d py_none b)).
Proof.
  unfold np_vstack. case_decide.
  - split; [by intros [= <-]|by intros [_ ->]].
  - split; [done|by intros [? _]].
Qed.

(** The population that a completed merge returns, attribute by attribute. *)
Lemma add_Return_full self pop q :
  __add__ one py_none Field_agree self pop = Return q →
  ∃ c o f v ph,
    match Encoding self with
    | Some _ => Encoding self = Encoding pop ∧
                Field self ≠ None ∧
                Field_agree (Field self) (Field pop) = true ∧
                is_Some (Chrom self) ∧ is_Some (Chrom pop) ∧
                (CV self = None ↔ CV pop = None) ∧
                ∃ m, np_vstack py_none (Chrom self) (Chrom pop) = Return m ∧
                     c = Some m
    | None => c = None
    end ∧
    np_vstack py_none (ObjV self) (ObjV pop) = Return o ∧
    np_vstack py_none (Some (FitnV self)) (Some (FitnV pop)) = Return f ∧
    match CV self with
    | Some _ => ∃ m, np_vstack py_none (CV self) (CV pop) = Return m ∧
                     v = Some m
    | None => v = None
    end ∧
    np_vstack py_none (Phen self) (Phen pop) = Return ph ∧
    q = mkPopulation (sizes self + sizes pop) (Encoding self)
          (if Encoding self is Some _ then Field self else None)
          c (from_option ncols 0 c) (Some o) f v (Some ph).
Proof.
  unfold __add__.
  intros (c&Hc&(o&Ho&(f&Hf&(v&Hv&(ph&Hph&Hq)%bind_Return)%bind_Return)
            %bind_Return)%bind_Return)%bind_Return.
  apply init_Return in Hq as (_&HF&->). simpl.
  exists c, o, f, v, ph. split_and!; try done.
  - destruct (Encoding self) as [e|]; [|by injection Hc as <-].
    apply bind_Return in Hc as (_&H1%raise_if_Return&Hc).
    apply bind_Return in Hc as (_&H2%raise_if_Return&Hc).
    apply bind_Return in Hc as (_&H3%raise_if_Return&Hc).
    apply bind_Return in Hc as (_&H4%raise_if_Return&Hc).
    apply fmap_Return in Hc as (m&Hm&->).
    apply bool_decide_eq_false in H1, H3. apply negb_false_iff in H2.
    split_and!.
    + by destruct (decide (Some e = Encoding pop)).
    + by apply HF.
    + done.
    + destruct (Chrom self); [done|]. destruct H3. by left.
    + destruct (Chrom pop); [done|]. destruct H3. by right.
    + by destruct (CV self), (CV pop).
    + by exists m.
  - destruct (CV self); [|by injection Hv as <-].
    apply fmap_Return in Hv as (m'&Hm&->). by exists m'.
  - f_equal. destruct (Encoding self) as [e|]; [done|]. by injection Hc as <-.
Qed.

(** X10.  The size of a merge is the sum of the sizes, whenever the merge
    returns. *)
Theorem add_len self pop q :
  __add__ one py_none Field_agree self pop = Return q →
  __len__ q = (__len__ self + __len__ pop)%Z.
Proof. by intros (c&o&f&v&ph&_&_&_&_&_&->)%add_Return_full. Qed.

(** X11.  A merge that returns has the encoding of [self], is
    scheme-consistent, has a [Lind] that is the column count of its
    genotype, has constraint violations exactly when [self] has them, and
    always has objective values and a phenotype, also when the operands have
    none. *)
Theorem add_scheme self pop q :
  __add__ one py_none Field_agree self pop = Return q →
  Encoding q = Encoding self ∧ scheme_consistent q ∧ lind_consistent q ∧
  (CV q = None ↔ CV self = None) ∧
  is_Some (ObjV q) ∧ is_Some (Phen q).
Proof.
  intros (c&o&f&v&ph&Hc&_&_&Hv&_&->)%add_Return_full.
  unfold scheme_consistent, lind_consistent. simpl. split_and!; try done.
  - destruct (Encoding self) as [e|] eqn:He; [|by subst].
    by destruct Hc as (_&HF&_&_&_&_&m&Hm&->).
  - destruct (CV self); [by destruct Hv as (?&_&->)|by subst].
Qed.

Lemma fmap_Raise {A B} (f : A → B) (r : result A) (e : exn) :
  f <$> r = Raise e → r = Raise e.
Proof. destruct r; simpl; [done|]. by intros [= <-]. Qed.

(** X12.  When [self] has no encoding the merge makes no check and ignores
    the scheme of [pop]: it raises none of the errors of the class (for
    sizes that are not negative), and what it returns has no encoding, no
    decode field, no genotype and [Lind] 0, whatever [pop] carries. *)
Theorem add_without_encoding self pop :
  Encoding self = None →
  (0 ≤ sizes self + sizes pop)%Z →
  (∀ msg, __add__ one py_none Field_agree self pop ≠ Raise (RuntimeError msg)) ∧
  (∀ q, __add__ one py_none Field_agree self pop = Return q →
        Encoding q = None ∧ Field q = None ∧ Chrom q = None ∧ Lind q = 0).
Proof.
  intros He Hn. split.
  - intros msg. unfold __add__. rewrite He. simpl.
    destruct (np_vstack py_none (ObjV self) (ObjV pop)) as [o|e] eqn:Ho; simpl.
    2: { intros [= ->]. by apply np_vstack_Raise in Ho. }
    destruct (np_vstack py_none (Some (FitnV self)) (Some (FitnV pop)))
      as [f|e] eqn:Hf; simpl.
    2: { intros [= ->]. by apply np_vstack_Raise in Hf. }
    destruct (match CV self with
              | Some _ => Some <$> np_vstack py_none (CV self) (CV pop)
              | None => Return None
              end) as [v|e] eqn:Hv; simpl.
    2: { intros [= ->]. destruct (CV self); [|done].
         apply fmap_Raise in Hv. by apply np_vstack_Raise in Hv. }
    destruct (np_vstack py_none (Phen self) (Phen pop)) as [ph|e] eqn:Hph;
      simpl.
    2: { intros [= ->]. by apply np_vstack_Raise in Hph. }
    unfold __init__. rewrite bool_decide_eq_true_2 by done. simpl. done.
  - intros q (c&o&f&v&ph&Hc&_&_&_&_&->)%add_Return_full. simpl.
    rewrite He in Hc |- *. by subst.
Qed.

(** X13.  The checks of the merge when [self] has an encoding, in their
    order: a different encoding, decode fields that do not agree, a missing
    genotype on either side, constraint violations on one side only; each
    raises its own error. *)
Theorem add_checks self pop :
  Encoding self ≠ None →
  (Encoding self ≠ Encoding pop →
   __add__ one py_none Field_agree self pop
   = Raise (RuntimeError Encoding_disagree)) ∧
  (Encoding self = Encoding pop →
   Field_agree (Field self) (Field pop) = false →
   __add__ one py_none Field_agree self pop
   = Raise (RuntimeError Field_disagree)) ∧
  (Encoding self = Encoding pop →
   Field_agree (Field self) (Field pop) = true →
   Chrom self = None ∨ Chrom pop = None →
   __add__ one py_none Field_agree self pop
   = Raise (RuntimeError Chrom_is_None)) ∧
  (Encoding self = Encoding pop →
   Field_agree (Field self) (Field pop) = true →
   Chrom self ≠ None → Chrom pop ≠ None →
   ¬ (CV self = None ↔ CV pop = None) →
   __add__ one py_none Field_agree self pop
   = Raise (RuntimeError CV_disagree)).
Proof.
  intros He. unfold __add__.
  destruct (Encoding self) as [e|] eqn:Hes; [clear He|done].
  split_and!.
  - intros Hne.
    rewrite (bool_decide_eq_true_2 (Some e ≠ Encoding pop)) by done.
    reflexivity.
  - intros Heq Hf.
    rewrite (bool_decide_eq_false_2 (Some e ≠ Encoding pop))
      by (intros H; by apply H).
    simpl. rewrite Hf. reflexivity.
  - intros Heq Hf Hc.
    rewrite (bool_decide_eq_false_2 (Some e ≠ Encoding pop))
      by (intros H; by apply H).
    simpl. rewrite Hf. simpl.
    rewrite (bool_decide_eq_true_2 (Chrom self = None ∨ Chrom pop = None))
      by done.
    reflexivity.
  - intros Heq Hf Hc1 Hc2 Hcv.
    rewrite (bool_decide_eq_false_2 (Some e ≠ Encoding pop))
      by (intros H; by apply H).
    simpl. rewrite Hf. simpl.
    rewrite (bool_decide_eq_false_2 (Chrom self = None ∨ Chrom pop = None))
      by tauto.
    simpl.
    replace (xorb (bool_decide (CV self = None)) (bool_decide (CV pop = None)))
      with true; [reflexivity|].
    destruct (CV self), (CV pop); try done; exfalso; apply Hcv; done.
Qed.

Lemma np_vstack_assoc a b c ab bc l r :
  np_vstack py_none a b = Return ab →
  np_vstack py_none (Some ab) c = Return l →
  np_vstack py_none b c = Return bc →
  np_vstack py_none a (Some bc) = Return r →
  l = r.
Proof.
  intros [_ ->]%np_vstack_Return_eq [_ ->]%np_vstack_Return_eq
    [_ ->]%np_vstack_Return_eq [_ ->]%np_vstack_Return_eq.
  simpl. by rewrite app_assoc.
Qed.

(** X14.  The merge is associative: when [(A + B) + C] and [A + (B + C)]
    both return, and [B] has constraint violations if [A] has, they return
    the same population. *)
Theorem add_assoc (A B C AB BC L R : Population elem field) :
  __add__ one py_none Field_agree A B = Return AB →
  __add__ one py_none Field_agree AB C = Return L →
  __add__ one py_none Field_agree B C = Return BC →
  __add__ one py_none Field_agree A BC = Return R →
  (CV A ≠ None → CV B ≠ None) →
  L = R.
Proof.
  intros (c1&o1&f1&v1&p1&Hc1&Ho1&Hf1&Hv1&Hp1&->)%add_Return_full
         (c2&o2&f2&v2&p2&Hc2&Ho2&Hf2&Hv2&Hp2&->)%add_Return_full
         (c3&o3&f3&v3&p3&Hc3&Ho3&Hf3&Hv3&Hp3&->)%add_Return_full
         (c4&o4&f4&v4&p4&Hc4&Ho4&Hf4&Hv4&Hp4&->)%add_Return_full Hcv.
  simpl in *.
  assert (o2 = o4) as -> by exact (np_vstack_assoc _ _ _ _ _ _ _ Ho1 Ho2 Ho3 Ho4).
  assert (f2 = f4) as -> by exact (np_vstack_assoc _ _ _ _ _ _ _ Hf1 Hf2 Hf3 Hf4).
  assert (p2 = p4) as -> by exact (np_vstack_assoc _ _ _ _ _ _ _ Hp1 Hp2 Hp3 Hp4).
  assert (c2 = c4) as ->.
  { destruct (Encoding A) as [e|]; [|by subst].
    destruct Hc1 as (HeB&_&_&_&_&_&m1&Hm1&->).
    destruct Hc2 as (_&_&_&_&_&_&m2&Hm2&->).
    destruct Hc4 as (_&_&_&_&_&_&m4&Hm4&->).
    rewrite <- HeB in Hc3. destruct Hc3 as (_&_&_&_&_&_&m3&Hm3&->).
    f_equal. exact (np_vstack_assoc _ _ _ _ _ _ _ Hm1 Hm2 Hm3 Hm4). }
  assert (v2 = v4) as ->.
  { destruct (CV A) as [va|]; [|by subst].
    destruct Hv1 as (m1&Hm1&->). destruct Hv2 as (m2&Hm2&->).
    destruct Hv4 as (m4&Hm4&->).
    destruct (CV B) as [vb|]; [|by destruct Hcv].
    destruct Hv3 as (m3&Hm3&->). f_equal.
    exact (np_vstack_assoc _ _ _ _ _ _ _ Hm1 Hm2 Hm3 Hm4). }
  f_equal; [lia|]. by destruct (Encoding A).
Qed.

Lemma fancy_get_app_l (c : nat) (r1 r2 : list (list elem)) :
  fancy_get (Matrix c (r1 ++ r2)) (arange 0 (length r1)) = Return (Matrix c r1).
Proof.
  apply fancy_get_Return. split; [done|]. unfold arange. simpl.
  apply Forall2_fmap_l, Forall2_same_length_lookup_2.
  - by rewrite length_seq.
  - intros i k r [-> Hi]%lookup_seq Hr. simpl in *.
    apply row_of_Return. exists i. unfold nrows. simpl. split.
    + rewrite py_index_nonneg by (rewrite length_app; lia).
      by rewrite Nat2Z.id.
    + by rewrite lookup_app_l.
Qed.

Lemma fancy_get_app_r (c : nat) (r1 r2 : list (list elem)) :
  fancy_get (Matrix c (r1 ++ r2)) (arange (length r1) (length r2))
  = Return (Matrix c r2).
Proof.
  apply fancy_get_Return. split; [done|]. unfold arange. simpl.
  apply Forall2_fmap_l, Forall2_same_length_lookup_2.
  - by rewrite length_seq.
  - intros i k r [-> Hi]%lookup_seq Hr. simpl in *.
    apply row_of_Return. exists (length r1 + i). unfold nrows. simpl. split.
    + rewrite py_index_nonneg by (rewrite length_app; lia).
      by rewrite Nat2Z.id.
    + rewrite lookup_app_r by lia. by replace (length r1 + i - length r1) with i by lia.
Qed.

(** The two halves of a stack of two matrices. *)
Lemma np_vstack_halves (sa sb : Z) (x y m : matrix elem) :
  Z.of_nat (nrows x) = sa → Z.of_nat (nrows y) = sb →
  np_vstack py_none (Some x) (Some y) = Return m →
  fancy_get m (arange 0 (Z.to_nat sa)) = Return x ∧
  fancy_get m (arange (Z.to_nat sa) (Z.to_nat sb)) = Return y.
Proof.
  intros <- <- [Hc ->]%np_vstack_Return_eq. simpl in *.
  rewrite !Nat2Z.id. unfold nrows. split.
  - rewrite fancy_get_app_l. by destruct x.
  - rewrite fancy_get_app_r, Hc. by destruct y.
Qed.

(** X15.  The views of a merge give the operands back.  For row-aligned,
    scheme-consistent populations of the same encoding that both carry
    objective values and a phenotype, and constraint violations on both
    sides or on neither: when [self + pop] returns [q], the view of the first
    [sizes self] individuals of [q] has exactly the attribute matrices of
    [self], and the view of the remaining [sizes pop] individuals exactly
    those of [pop]. *)
Theorem add_then_getitem self pop q :
  __add__ one py_none Field_agree self pop = Return q →
  scheme_consistent self → scheme_consistent pop →
  Encoding self = Encoding pop →
  row_aligned self → row_aligned pop →
  is_Some (ObjV self) → is_Some (ObjV pop) →
  is_Some (Phen self) → is_Some (Phen pop) →
  (CV self = None ↔ CV pop = None) →
  ∃ qa qb,
    __getitem__ one q (arange 0 (Z.to_nat (sizes self))) = Return qa ∧
    __getitem__ one q (arange (Z.to_nat (sizes self)) (Z.to_nat (sizes pop)))
    = Return qb ∧
    sizes qa = sizes self ∧ attributes qa = attributes self ∧
    sizes qb = sizes pop ∧ attributes qb = attributes pop.
Proof.
  intros (c&o&f&v&ph&Hc&Ho&Hf&Hv&Hph&->)%add_Return_full Hsc1 Hsc2 He
    (HC1&HO1&HF1&HV1&HP1)%row_aligned_iff (HC2&HO2&HF2&HV2&HP2)%row_aligned_iff
    [oa HOa] [ob HOb] [pa HPa] [pb HPb] Hcv.
  unfold scheme_consistent in *.
  rewrite HOa, HOb in *. rewrite HPa, HPb in *. simpl in *.
  destruct (np_vstack_halves _ _ _ _ _ HO1 HO2 Ho) as [Hoa Hob].
  destruct (np_vstack_halves _ _ _ _ _ HF1 HF2 Hf) as [Hfa Hfb].
  destruct (np_vstack_halves _ _ _ _ _ HP1 HP2 Hph) as [Hpa Hpb].
  assert (Hva : subscript_if_present v (arange 0 (Z.to_nat (sizes self)))
                = Return (CV self) ∧
                subscript_if_present v
                  (arange (Z.to_nat (sizes self)) (Z.to_nat (sizes pop)))
                = Return (CV pop)).
  { destruct (CV self) as [va|], (CV pop) as [vb|];
      try (by destruct Hcv as [H1 H2];
           (discriminate (H1 eq_refl) || discriminate (H2 eq_refl))).
    - destruct Hv as (m&Hm&->). simpl in *.
      destruct (np_vstack_halves _ _ _ _ _ HV1 HV2 Hm) as [-> ->]. done.
    - by subst. }
  destruct Hva as [Hva Hvb].
  assert (Hca : ∃ ca cb,
    match Encoding self with
    | Some _ => ∃ m, c = Some m ∧
                     Some <$> fancy_get m (arange 0 (Z.to_nat (sizes self)))
                     = Return ca
    | None => ca = None
    end ∧
    match Encoding self with
    | Some _ => ∃ m, c = Some m ∧
                     Some <$> fancy_get m (arange (Z.to_nat (sizes self))
                                             (Z.to_nat (sizes pop)))
                     = Return cb
    | None => cb = None
    end ∧ ca = Chrom self ∧ cb = Chrom pop).
  { rewrite <- He in Hsc2. destruct (Encoding self) as [e|].
    - destruct Hc as (_&_&_&[x Hx]&[y Hy]&_&m&Hm&->).
      rewrite Hx, Hy in *. simpl in *.
      destruct (np_vstack_halves _ _ _ _ _ HC1 HC2 Hm) as [Hma Hmb].
      exists (Some x), (Some y). split_and!; try done.
      + exists m. by rewrite Hma.
      + exists m. by rewrite Hmb.
    - destruct Hsc1 as [_ ->], Hsc2 as [_ ->]. by exists None, None. }
  destruct Hca as (ca&cb&Hca&Hcb&->&->).
  assert (Hfield : Encoding self ≠ None →
                   (if Encoding self is Some _ then Field self else None) ≠ None).
  { destruct (Encoding self); [|done]. by destruct Hc as (_&?&_). }
  eexists _, _. split_and!.
  - apply getitem_Return.
    exists (Chrom self), (Some oa), (FitnV self), (CV self), pa. simpl.
    split_and!; try done; [|by rewrite Hoa].
    destruct (Encoding self) as [e|]; [|done]. split; [by apply Hfield|].
    destruct Hca as (m&->&Hm). by exists m.
  - apply getitem_Return.
    exists (Chrom pop), (Some ob), (FitnV pop), (CV pop), pb. simpl.
    split_and!; try done; [|by rewrite Hob].
    destruct (Encoding self) as [e|]; [|done]. split; [by apply Hfield|].
    destruct Hcb as (m&->&Hm). by exists m.
  - done.
  - unfold attributes. simpl. by rewrite HOa, HPa.
  - done.
  - unfold attributes. simpl. by rewrite HOb, HPb.
Qed.

(** ** Further properties of the indexed assignment *)

Lemma assign_shape a index b m' :
  assign cast_none a index b = Return m' → shape (Some m') = shape a.
Proof.
  intros (m&->&[Hr Hc]%fancy_set_shape)%assign_Return. unfold shape. simpl.
  by rewrite Hr, Hc.
Qed.

Lemma assign_no_RuntimeError a index b msg :
  assign cast_none a index b ≠ Raise (RuntimeError msg).
Proof. intros H. by apply assign_Raise in H as [|[|]]. Qed.

Lemma fancy_set_no_RuntimeError m index b msg :
  fancy_set cast_none m index b ≠ Raise (RuntimeError msg).
Proof. intros H. by apply fancy_set_Raise in H as [|[|]]. Qed.

(** X16.  An error of the class raised by the indexed assignment means that
    nothing was written: when [self[index] = pop] ends with a
    [RuntimeError], [self] has an encoding and is exactly as it was. *)
Theorem setitem_RuntimeError_unchanged index pop self self' msg :
  __setitem__ cast_none Field_agree index pop self
  = (self', Raise (RuntimeError msg)) →
  Encoding self ≠ None ∧ self' = self.
Proof.
  unfold __setitem__, mbind, mut_bind, get, lift, store, mret, mut_ret,
    raise_if.
  intros H.
  repeat (case_match; simplify_eq; try done);
    try (by exfalso; eapply assign_no_RuntimeError);
    try (by exfalso; eapply fancy_set_no_RuntimeError).
Qed.

(** X17.  Whatever its outcome, the indexed assignment changes neither the
    encoding, the decode field and [Lind] of [self], nor the presence, the
    number of rows or the number of columns of any attribute: it cannot make
    the population grow or shrink.  When it completes, the size is the
    number of rows that the phenotype had; when it raises, the size is
    unchanged. *)
Theorem setitem_keeps_shapes index pop self self' (r : result unit) :
  __setitem__ cast_none Field_agree index pop self = (self', r) →
  Encoding self' = Encoding self ∧ Field self' = Field self ∧
  Lind self' = Lind self ∧
  Forall2 (λ a' a, shape a' = shape a) (attributes self') (attributes self) ∧
  match r with
  | Return _ => Some (sizes self') = (Z.of_nat ∘ nrows) <$> Phen self
  | Raise _ => sizes self' = sizes self
  end.
Proof.
  unfold __setitem__, mbind, mut_bind, get, lift, store, mret, mut_ret,
    raise_if.
  intros H. rewrite attributes_Forall2.
  repeat (case_match; simplify_eq; try done);
    repeat match goal with
           | H : assign _ _ _ _ = Return _ |- _ =>
               let Hs := fresh "Hs" in
               pose proof (assign_shape _ _ _ _ H) as Hs;
               apply assign_Return in H as (?&?&?)
           | H : fancy_set _ _ _ _ = Return _ |- _ =>
               apply fancy_set_shape in H as [? ?]
           end;
    simpl in *; simplify_eq; unfold shape in *; simpl in *;
    split_and!; try done; try congruence;
    repeat match goal with
           | H : ?a = Some _ |- context [?a] => rewrite H
           | H : ?a = None |- context [?a] => rewrite H
           end;
    simpl; congruence.
Qed.

(** Rows read back after they were written: a gather by the index sequence
    of an assignment returns the value assigned, when no index is repeated
    and the value has the shape of the rows selected. *)
Lemma fancy_set_then_get m index x m' :
  fancy_set cast_none m index (Some x) = Return m' →
  NoDup index → Forall (λ z, 0 ≤ z)%Z index →
  nrows x = length index → ncols x = ncols m →
  fancy_get m' index = Return x.
Proof.
  intros Hset Hnd Hnn Hn Hc.
  pose proof (fancy_set_shape _ _ _ _ _ Hset) as [Hr' Hc'].
  apply fancy_get_Return. split; [congruence|].
  apply Forall2_same_length_lookup_2; [done|].
  intros i z r Hi Hr.
  assert (Hz : (0 ≤ z)%Z).
  { rewrite Forall_forall in Hnn. apply Hnn. by eapply list_elem_of_lookup_2. }
  apply fancy_set_Return in Hset as Hset'.
  destruct Hset' as (x'&rs&ks&_&_&Hks&_).
  apply mapM_Return in Hks.
  destruct (Forall2_lookup_l _ _ _ _ _ Hks Hi) as (k&_&Hk).
  pose proof (py_index_nonneg_inv _ _ _ Hz Hk) as Hkz.
  apply row_of_Return. exists k. rewrite Hr'. split; [done|].
  replace k with (Z.to_nat z) by lia. rewrite <- Hr.
  eapply fancy_set_written; try done.
  intros j Hj Hij. apply (NoDup_lookup _ _ _ _ Hnd Hi) in Hij. lia.
Qed.

(** X18.  Individuals read back after they were assigned.  When
    [self[index] = pop] completes on a scheme-consistent [self], for an index
    sequence of 0-based indices without repetition, and every attribute of
    [pop] that corresponds to a present attribute of [self] is present with
    one row per index and the same columns, then the view [self[index]]
    taken afterwards returns the objective values, fitness and phenotype of
    [pop], its genotype if [self] has an encoding, and its constraint
    violations if [self] has them. *)
Theorem setitem_then_getitem index pop self self' :
  __setitem__ cast_none Field_agree index pop self = (self', Return tt) →
  scheme_consistent self →
  NoDup index → Forall (λ z, 0 ≤ z)%Z index →
  Forall2 (λ a b, ∀ y, a = Some y →
             ∃ x, b = Some x ∧ nrows x = length index ∧ ncols x = ncols y)
          (attributes self) (attributes pop) →
  ∃ q, __getitem__ one self' index = Return q ∧
       ObjV q = ObjV pop ∧ FitnV q = FitnV pop ∧ Phen q = Phen pop ∧
       (Encoding self ≠ None → Chrom q = Chrom pop) ∧
       (CV self ≠ None → CV q = CV pop).
Proof.
  intros (c&o&f&v&ph&Hc&Ho&Hf&Hv&Hph&->)%setitem_Return Hsc Hnd Hnn
    (FC&FO&FF&FV&FP)%attributes_Forall2.
  assert (Hback : ∀ a b m',
    (∀ y, a = Some y →
          ∃ x, b = Some x ∧ nrows x = length index ∧ ncols x = ncols y) →
    assign cast_none a index b = Return m' →
    ∃ x, b = Some x ∧ fancy_get m' index = Return x).
  { intros a b m' Hfit (m&->&Hm)%assign_Return.
    destruct (Hfit m eq_refl) as (x&->&Hxn&Hxc).
    exists x. split; [done|]. by eapply fancy_set_then_get. }
  destruct (Hback _ _ _ FO Ho) as (xo&HOp&Hgo).
  destruct (Hback (Some (FitnV self)) (Some (FitnV pop)) _ FF Hf)
    as (xf&[= <-]&Hgf).
  destruct (Hback _ _ _ FP Hph) as (xp&HPp&Hgp).
  assert (HV : ∃ v', subscript_if_present v index = Return v' ∧
                     (CV self ≠ None → v' = CV pop)).
  { destruct (CV self) as [v0|] eqn:Hv0.
    - destruct Hv as (m&Hm&->).
      destruct (Hback _ _ _ FV Hm) as (xv&HVp&Hgv).
      exists (Some xv). simpl. rewrite Hgv. by rewrite HVp.
    - subst v. by exists None. }
  destruct HV as (v'&Hgv&Hv').
  assert (HC : ∃ c',
    match Encoding self with
    | Some _ => Field self ≠ None ∧
                ∃ m, c = Some m ∧ Some <$> fancy_get m index = Return c'
    | None => c' = None
    end ∧ (Encoding self ≠ None → c' = Chrom pop)).
  { unfold scheme_consistent in Hsc. destruct (Encoding self) as [e|].
    - destruct Hc as (_&_&_&_&m&Hm&->).
      destruct (Hback _ _ _ FC Hm) as (xc&HCp&Hgc).
      exists (Some xc). split; [|by rewrite HCp]. split; [done|].
      exists m. by rewrite Hgc.
    - by exists None. }
  destruct HC as (c'&Hgc&Hc').
  eexists. split.
  - apply getitem_Return. exists c', (Some xo), (FitnV pop), v', xp. simpl.
    split_and!; try done. by rewrite Hgo.
  - simpl. by split_and!.
Qed.

Lemma last_write (kvs : list (nat * list elem)) (k : nat) :
  k ∈ kvs.*1 →
  ∃ i r, kvs !! i = Some (k, r) ∧
         ∀ j kr, i < j → kvs !! j = Some kr → kr.1 ≠ k.
Proof.
  induction kvs as [|[k' r'] kvs IH]; [by intros ?%elem_of_nil|].
  intros Hk. destruct (decide (k ∈ kvs.*1)) as [Hin|Hout].
  - destruct (IH Hin) as (i&r&Hi&Hlast). exists (S i), r. split; [done|].
    intros [|j] kr Hj Hkr; [lia|]. apply (Hlast j kr); [lia|done].
  - rewrite fmap_cons, elem_of_cons in Hk. simpl in Hk.
    destruct Hk as [->|Hk]; [|done].
    exists 0, r'. split; [done|].
    intros [|j] kr Hj Hkr; [lia|]. simpl in Hkr. intros <-.
    apply Hout, list_elem_of_fmap. exists kr. split; [done|].
    by eapply list_elem_of_lookup_2.
Qed.

(** Writing the same rows a second time changes nothing. *)
Lemma foldl_write_idem (l : list (list elem)) (kvs : list (nat * list elem)) :
  Forall (λ kr, kr.1 < length l) kvs →
  foldl write_row (foldl write_row l kvs) kvs = foldl write_row l kvs.
Proof.
  intros Hlt. apply list_eq. intros k.
  destruct (decide (k ∈ kvs.*1)) as [Hin|Hout].
  - destruct (last_write _ _ Hin) as (i&r&Hi&Hlast).
    assert (k < length l) as Hk.
    { rewrite Forall_forall in Hlt.
      apply (Hlt (k, r)). by eapply list_elem_of_lookup_2. }
    rewrite (foldl_write_last _ _ i k r), (foldl_write_last _ _ i k r);
      try done.
    by rewrite foldl_write_length.
  - by rewrite foldl_write_other.
Qed.

Lemma fancy_set_idem m index b m' :
  fancy_set cast_none m index b = Return m' →
  fancy_set cast_none m' index b = Return m'.
Proof.
  intros Hset. pose proof (fancy_set_shape _ _ _ _ _ Hset) as [Hr Hc].
  apply fancy_set_Return in Hset as (x&rs&ks&Hx&Hrs&Hks&Hm').
  apply fancy_set_Return. exists x, rs, ks. rewrite Hr, Hc.
  split_and!; try done. rewrite Hm' at 1. rewrite Hm'. simpl. f_equal.
  symmetry. apply foldl_write_idem.
  apply mapM_Return in Hks.
  apply Forall_forall. intros [k r] [j Hj]%list_elem_of_lookup_1.
  apply lookup_zip_with_Some in Hj as (k'&?&[= <- <-]&Hk'&_). simpl.
  destruct (Forall2_lookup_r _ _ _ _ _ Hks Hk') as (z&_&Hz).
  by eapply py_index_lt.
Qed.

Lemma assign_idem a index b m' :
  assign cast_none a index b = Return m' →
  assign cast_none (Some m') index b = Return m'.
Proof. intros (m&->&Hm)%assign_Return. simpl. by eapply fancy_set_idem. Qed.

(** When the checks pass and every assignment succeeds, the indexed
    assignment completes with the attributes assigned. *)
Lemma setitem_complete index pop self c o f v ph :
  match Encoding self with
  | Some _ =>
      Encoding self = Encoding pop ∧
      Field_agree (Field self) (Field pop) = true ∧
      Z.of_nat (length index) = sizes pop ∧
      (CV self = None ↔ CV pop = None) ∧
      ∃ m, assign cast_none (Chrom self) index (Chrom pop) = Return m ∧
           c = Some m
  | None => c = Chrom self
  end →
  assign cast_none (ObjV self) index (ObjV pop) = Return o →
  fancy_set cast_none (FitnV self) index (Some (FitnV pop)) = Return f →
  match CV self with
  | Some _ => ∃ m, assign cast_none (CV self) index (CV pop) = Return m ∧
                   v = Some m
  | None => v = None
  end →
  assign cast_none (Phen self) index (Phen pop) = Return ph →
  __setitem__ cast_none Field_agree index pop self
  = (mkPopulation (Z.of_nat (nrows ph)) (Encoding self) (Field self)
       c (Lind self) (Some o) f v (Some ph), Return tt).
Proof.
  intros Hc Ho Hf Hv Hph.
  unfold __setitem__, mbind, mut_bind, get, lift, store, mret, mut_ret.
  destruct (Encoding self) as [e|] eqn:He.
  - destruct Hc as (Hep&Hag&Hlen&Hcv&m&Hm&->).
    rewrite (bool_decide_eq_false_2 (Some e ≠ Encoding pop))
      by (intros H; by apply H).
    simpl. rewrite Hag. simpl.
    rewrite (bool_decide_eq_false_2 (Z.of_nat (length index) ≠ sizes pop))
      by (intros H; by apply H).
    simpl. rewrite Hm.
    apply assign_Return in Hm as Hm'. destruct Hm' as (m0&HCh&_).
    rewrite HCh. simpl.
    replace (xorb (bool_decide (CV self = None)) (bool_decide (CV pop = None)))
      with false
      by (destruct (CV self), (CV pop); try done;
          destruct Hcv as [H1 H2];
          (discriminate (H1 eq_refl) || discriminate (H2 eq_refl))).
    simpl. rewrite Ho, Hf. destruct (CV self) as [v0|] eqn:Hv0.
    + destruct Hv as (mv&Hmv&->). rewrite Hmv, Hph.
      unfold set_sizes, set_Phen, set_CV, set_FitnV, set_ObjV, set_Chrom.
      simpl. by rewrite He.
    + subst v. rewrite Hph.
      unfold set_sizes, set_Phen, set_CV, set_FitnV, set_ObjV, set_Chrom.
      simpl. by rewrite He, Hv0.
  - subst c. rewrite Ho, Hf. destruct (CV self) as [v0|] eqn:Hv0.
    + destruct Hv as (mv&Hmv&->). rewrite Hmv, Hph.
      unfold set_sizes, set_Phen, set_CV, set_FitnV, set_ObjV, set_Chrom.
      simpl. by rewrite He.
    + subst v. rewrite Hph.
      unfold set_sizes, set_Phen, set_CV, set_FitnV, set_ObjV, set_Chrom.
      simpl. by rewrite He, Hv0.
Qed.

(** X19.  The indexed assignment is idempotent: after [self[index] = pop]
    has completed, the same assignment done again completes and leaves
    [self] as the first one left it. *)
Theorem setitem_idempotent index pop self self' :
  __setitem__ cast_none Field_agree index pop self = (self', Return tt) →
  __setitem__ cast_none Field_agree index pop self' = (self', Return tt).
Proof.
  intros (c&o&f&v&ph&Hc&Ho&Hf&Hv&Hph&->)%setitem_Return.
  rewrite (setitem_complete index pop _ c o f v ph); simpl.
  - done.
  - destruct (Encoding self); [|done].
    destruct Hc as (?&?&?&Hcv&m&Hm&->). split_and!; try done.
    + destruct (CV self) as [v0|]; [|by subst].
      destruct Hv as (mv&_&->). split; [done|].
      intros Hp. by apply Hcv in Hp.
    + exists m. split; [|done]. by eapply assign_idem.
  - by eapply assign_idem.
  - by eapply fancy_set_idem.
  - destruct (CV self) as [v0|]; [|by subst].
    destruct Hv as (m&Hm&->). exists m. split; [|done]. by eapply assign_idem.
  - by eapply assign_idem.
Qed.

(** ** Further properties of [initChrom] and [shuffle] *)

(** X20.  [initChrom] is a full reset.  When it completes, the size is the
    one asked for (the old one by default) and is not negative, encoding and
    decode field are unchanged, the encoding is one of 'BG', 'RI', 'P', the
    genotype is the matrix that the generator returned, [Lind] is its column
    count, objective values and constraint violations are absent, the
    fitness is a column of ones with one row per individual, and for 'RI'
    and 'P' the phenotype is equal to the genotype. *)
Theorem initChrom_resets NIND self self' :
  initChrom one crtpc bs2ri NIND self = (self', Return tt) →
  let n := default (sizes self) NIND in
  sizes self' = n ∧ (0 ≤ n)%Z ∧
  Encoding self' = Encoding self ∧ Field self' = Field self ∧
  Encoding self ∈ [Some "BG"; Some "RI"; Some "P"] ∧
  Some <$> crtpc (Encoding self) n (Field self) = Return (Chrom self') ∧
  lind_consistent self' ∧
  ObjV self' = None ∧ CV self' = None ∧
  FitnV self' = Matrix 1 (replicate (Z.to_nat n) [one]) ∧
  is_Some (Phen self') ∧
  (Encoding self ≠ Some "BG" → Phen self' = Chrom self').
Proof.
  intros (c&f&ph&Hc&Hf&Hph&->)%initChrom_Return. simpl in *.
  unfold np_ones in Hf. case_decide; [done|]. injection Hf as <-.
  unfold decoding in Hph. simpl in Hph. unfold lind_consistent. simpl.
  split_and!; try done; try lia.
  - rewrite !elem_of_cons. repeat case_decide; try done; tauto.
  - by rewrite Hc.
  - intros Hbg. rewrite decide_False in Hph by done.
    case_decide; [|done]. by injection Hph as <-.
Qed.

(** X21.  [initChrom] on a population whose encoding is none of 'BG', 'RI',
    'P' (in particular without an encoding) never completes; when the size
    is not negative and the generator returns a genotype, it raises the
    decoding error and leaves [self] half reset: the new genotype and [Lind]
    are stored, objective values and constraint violations are cleared, the
    fitness is all ones, and the phenotype is the old one. *)
Theorem initChrom_unsupported_encoding NIND self :
  Encoding self ∉ [Some "BG"; Some "RI"; Some "P"] →
  let n := default (sizes self) NIND in
  (∀ self' r, initChrom one crtpc bs2ri NIND self = (self', r) → r ≠ Return tt) ∧
  (∀ c, (0 ≤ n)%Z →
        crtpc (Encoding self) n (Field self) = Return c →
        initChrom one crtpc bs2ri NIND self
        = (mkPopulation n (Encoding self) (Field self) (Some c) (ncols c)
             None (Matrix 1 (replicate (Z.to_nat n) [one])) None (Phen self),
           Raise (RuntimeError Encoding_must_be_BG_RI_P))).
Proof.
  intros He n. rewrite !not_elem_of_cons in He. destruct He as (H1&H2&H3&_).
  split.
  - intros self' r Hr ->.
    apply initChrom_Return in Hr as (c&f&ph&_&_&Hph&_).
    unfold decoding in Hph. simpl in Hph.
    rewrite decide_False in Hph by done.
    by rewrite decide_False in Hph by tauto.
  - intros c Hn Hc.
    unfold initChrom, mbind, mut_bind, get, lift, store, mret, mut_ret.
    subst n. destruct NIND as [m|]; simpl in *; rewrite Hc; unfold np_ones;
      rewrite decide_False by lia; unfold decoding; simpl;
      rewrite decide_False by done; rewrite decide_False by tauto;
      [done|by destruct self].
Qed.

(** X22.  [initChrom] called with a negative size never completes, and
    whatever happens the negative number is left in [sizes]. *)
Theorem initChrom_negative_size (n : Z) self self' (r : result unit) :
  (n < 0)%Z →
  initChrom one crtpc bs2ri (Some n) self = (self', r) →
  r ≠ Return tt ∧ sizes self' = n.
Proof.
  intros Hn. unfold initChrom, mbind, mut_bind, get, lift, store, mret,
    mut_ret. simpl.
  destruct (crtpc (Encoding self) n (Field self)) as [c|e]; simpl.
  - unfold np_ones. rewrite decide_True by done. by intros [= <- <-].
  - by intros [= <- <-].
Qed.

Lemma subscript_ncols a index m' :
  subscript a index = Return m' → (ncols <$> a) = Some (ncols m').
Proof.
  destruct a as [m|]; simpl; [|done]. intros H%fancy_get_ncols. by rewrite H.
Qed.

Lemma subscript_if_present_ncols a index b :
  subscript_if_present a index = Return b → (ncols <$> b) = (ncols <$> a).
Proof.
  intros H%subscript_if_present_Return. destruct a as [m|]; [|by subst].
  destruct H as (m'&Hm'%fancy_get_ncols&->). simpl. by rewrite Hm'.
Qed.

(** X23.  Whatever its outcome, [shuffle] changes neither the size, the
    encoding, the decode field and [Lind], nor the number of columns of the
    fitness; objective values and constraint violations stay present or
    absent as they were, with their columns; and a genotype or phenotype
    that is present afterwards has the columns it had. *)
Theorem shuffle_frame self self' (r : result unit) :
  shuffle rng self = (self', r) →
  sizes self' = sizes self ∧ Encoding self' = Encoding self ∧
  Field self' = Field self ∧ Lind self' = Lind self ∧
  ncols (FitnV self') = ncols (FitnV self) ∧
  (ncols <$> ObjV self') = (ncols <$> ObjV self) ∧
  (ncols <$> CV self') = (ncols <$> CV self) ∧
  (is_Some (Chrom self') → (ncols <$> Chrom self') = (ncols <$> Chrom self)) ∧
  (is_Some (Phen self') → (ncols <$> Phen self') = (ncols <$> Phen self)).
Proof.
  unfold shuffle, mbind, mut_bind, get, lift, store, mret, mut_ret, raise_if.
  intros H.
  repeat (case_match; simplify_eq; try done);
    repeat match goal with
           | H : subscript _ _ = Return _ |- _ =>
               apply subscript_ncols in H
           | H : subscript_if_present _ _ = Return _ |- _ =>
               apply subscript_if_present_ncols in H
           | H : fancy_get _ _ = Return _ |- _ =>
               apply fancy_get_ncols in H
           end;
    simpl in *; split_and!; try done; try congruence;
    try (by intros [? ?]).
Qed.

Lemma np_argsort_small (u : list Q) :
  length u ≤ 1 → np_argsort u = seq 0 (length u).
Proof.
  intros Hu. pose proof (np_argsort_Permutation u) as Hp.
  destruct u as [|x [|]]; simpl in *; [|  |lia].
  - by apply Permutation_nil_r in Hp.
  - by apply Permutation_singleton_r in Hp.
Qed.

(** X24.  [shuffle] leaves a population of at most one individual as it is:
    on an initialized, row-aligned population with a phenotype and a size of
    0 or 1 it completes and changes nothing. *)
Theorem shuffle_at_most_one self :
  initialized self → Phen self ≠ None → row_aligned self →
  (sizes self ≤ 1)%Z →
  shuffle rng self = (self, Return tt).
Proof.
  intros [Hsc Hinit] HPhen (HC&HO&HF&HV&HP)%row_aligned_iff Hle.
  assert (Hnn : (0 ≤ sizes self)%Z) by lia.
  destruct (np_random_rand_Return _ Hnn) as (u&Hu&Hlen).
  assert (Hshuff : Z.of_nat <$> np_argsort u = arange 0 (Z.to_nat (sizes self))).
  { rewrite np_argsort_small by lia. by rewrite Hlen. }
  assert (Hsub : ∀ a, has_rows (sizes self) a →
    subscript_if_present a (arange 0 (Z.to_nat (sizes self))) = Return a).
  { intros [m|] Ha; simpl in *; [|done]. rewrite <- Ha, Nat2Z.id.
    by rewrite fancy_get_arange. }
  unfold shuffle, mbind, mut_bind, get, lift, store.
  rewrite Hu, Hshuff. rewrite (Hsub _ HO), (Hsub _ HV).
  pose proof (Hsub (Some (FitnV self)) HF) as HFs. simpl in HFs.
  apply fmap_Return in HFs as (f&HFs&[= <-]). rewrite HFs.
  destruct (Phen self) as [ph|] eqn:HPh; [|done].
  pose proof (Hsub (Some ph) HP) as HPs. simpl in HPs.
  apply fmap_Return in HPs as (ph'&HPs&[= <-]).
  unfold scheme_consistent in Hsc.
  destruct (Encoding self) as [e|] eqn:He.
  - destruct (Chrom self) as [m|] eqn:HCh; [|by destruct Hinit].
    pose proof (Hsub (Some m) HC) as HCs. simpl in HCs.
    apply fmap_Return in HCs as (m'&HCs&[= <-]). simpl. rewrite HCs, HPs.
    destruct self; simpl in *; by subst.
  - destruct Hsc as [_ HCh]. simpl. rewrite HPs.
    destruct self; simpl in *; by subst.
Qed.

(** X25.  The in-place operations keep the chromosome length right: on a
    scheme-consistent population whose [Lind] is the column count of its
    genotype, [Lind] is still the column count of the genotype after the
    indexed assignment and after [shuffle], whatever their outcome. *)
Theorem in_place_lind_consistent self :
  scheme_consistent self → lind_consistent self →
  (∀ index pop self' r,
     __setitem__ cast_none Field_agree index pop self = (self', r) →
     lind_consistent self') ∧
  (∀ self' r, shuffle rng self = (self', r) → lind_consistent self').
Proof.
  unfold scheme_consistent, lind_consistent. intros Hsc Hl. split.
  - intros index pop self' r.
    unfold __setitem__, mbind, mut_bind, get, lift, store, mret, mut_ret,
      raise_if.
    intros H.
    repeat (case_match; simplify_eq; try done);
      repeat match goal with
             | H : assign _ _ _ _ = Return _ |- _ =>
                 apply assign_Return in H as (?&?&[_ ?]%fancy_set_shape)
             end;
      simpl in *; simplify_eq; simpl in *; try congruence;
      match goal with H : Chrom self = _ |- _ => rewrite H in Hl end;
      simpl in *; congruence.
  - intros self' r.
    unfold shuffle, mbind, mut_bind, get, lift, store, mret, mut_ret,
      raise_if.
    intros H.
    repeat (case_match; simplify_eq; try done);
      repeat match goal with
             | H : subscript _ _ = Return _ |- _ =>
                 apply subscript_ncols in H
             end;
      simpl in *; simplify_eq; simpl in *; try congruence;
      try (destruct Hsc as [_ Hc]; rewrite Hc in Hl; simpl in *; congruence);
      try (match goal with H : Chrom self = _ |- _ => rewrite H in Hl end;
           simpl in *; congruence);
      destruct (Chrom self); simpl in *; congruence.
Qed.

End Properties.

(** ** The properties on the concrete instance *)

Section DemoFacts.
Import Demo.

Lemma demo_generator_contract : generator_contract crtpc.
Proof.
  intros e n f m. unfold crtpc, np_ones. case_decide; [done|].
  intros [= <-]. unfold nrows. simpl. rewrite length_replicate. lia.
Defined.

Lemma demo_codec_contract : codec_contract bs2ri.
Proof. intros c f m. simpl. by intros [= <-]. Defined.

(** The demo populations are what the constructor returns. *)
Example popA_constructed :
  __init__ one (Some "RI") (Some F) 3 (Some chrom3) (Some objv3) None None
           (Some chrom3) = Return popA.
Proof. reflexivity. Qed.

Example fresh2_constructed :
  __init__ one (Some "RI") (Some F) 2 (Some chrom2) None None None None
  = Return fresh2.
Proof. reflexivity. Qed.

Example uninit_constructed :
  __init__ one (Some "RI") (Some F) 2 None None None None None = Return uninit.
Proof. reflexivity. Qed.

Example bare_constructed :
  __init__ one None None 2 None None None None None = Return bare.
Proof. reflexivity. Qed.

Example plainA_constructed :
  __init__ one None None 3 None (Some objv3) None None (Some chrom3)
  = Return plainA.
Proof. reflexivity. Qed.

(** The scenarios of the specification: a population constructed from a
    real-integer genotype decodes to that genotype and has an all-ones
    fitness; a population of two merged with one of three has five
    individuals. *)
Example scenario_construct_decode :
  decoding bs2ri popA = Return chrom3 ∧ FitnV popA = ones 3.
Proof. by split. Qed.

Example scenario_merge_sizes :
  sizes <$> __add__ one py_none Field_agree popB popA = Return 5%Z.
Proof. reflexivity. Qed.

(** Without an encoding, an index sequence of length 2 against a source of
    size 3 is stopped by numpy's shape check, not by the class. *)
Example setitem_without_encoding_short_index :
  __setitem__ cast_none Field_agree [0; 1]%Z plainA plainA
  = (plainA, Raise ValueError).
Proof. reflexivity. Qed.

(** [shuffle] on a population without a phenotype: the fitness has been
    permuted when the phenotype is subscripted and the error escapes. *)
Example shuffle_absent_phenotype :
  (shuffle rng bare).2 = Raise TypeError.
Proof. reflexivity. Qed.

(** C1, counterexample.  The constructor given [NIND = 3] and a genotype of
    two rows returns a population of size 3 whose genotype has two rows. *)
Lemma init_accepts_other_row_count :
  ∃ q, __init__ one (Some "RI") (Some F) 3 (Some chrom2) None None None None
       = Return q ∧
       sizes q = 3%Z ∧ (nrows <$> Chrom q) = Some 2 ∧ ¬ row_aligned q.
Proof.
  eexists. split; [reflexivity|]. split_and!; [done|done|].
  intros (H&_)%row_aligned_iff. simpl in H. discriminate H.
Qed.

Lemma produced_row_aligned_witness :
  produced one py_none cast_none Field_agree crtpc bs2ri rng popA ∧
  row_aligned popA.
Proof.
  assert (produced one py_none cast_none Field_agree crtpc bs2ri rng popA) as H.
  { apply (produced_init one py_none cast_none Field_agree crtpc bs2ri rng
             (Some "RI") (Some F) 3 (Some chrom3) (Some objv3) None None
             (Some chrom3)).
    - repeat constructor.
    - reflexivity. }
  split; [exact H|].
  exact (produced_row_aligned one py_none cast_none Field_agree crtpc bs2ri
           rng popA demo_generator_contract demo_codec_contract H).
Defined.

Lemma popA_initialized : initialized popA.
Proof. split; [done|]. by intros _. Defined.

Lemma popA_row_aligned : row_aligned popA.
Proof. repeat constructor. Defined.

Lemma popB_row_aligned : row_aligned popB.
Proof. repeat constructor. Defined.

Lemma getitem_gathers_rows_witness :
  ∃ q, __getitem__ one popA [2; 0; 2]%Z = Return q ∧
       sizes q = Z.of_nat (length [2; 0; 2]%Z) ∧
       (∀ i z, [2; 0; 2]%Z !! i = Some z →
               row_at (Phen q) i = row_at (Phen popA) (Z.to_nat z)) ∧
       Forall2 (λ b a, (b = None ↔ a = None) ∧
                  ∀ i z, [2; 0; 2]%Z !! i = Some z →
                         row_at b i = row_at a (Z.to_nat z))
               (attributes q) (attributes popA).
Proof.
  apply (getitem_gathers_rows one popA [2; 0; 2]%Z).
  - exact popA_initialized.
  - done.
  - exact popA_row_aligned.
  - repeat constructor; simpl; lia.
Defined.

(** C3, counterexample.  Two populations constructed from a genotype alone
    meet the preconditions of the merge; their merge returns a population
    of size 3 whose objective values and phenotype are present with two
    rows holding [None]: neither the concatenation of the (absent)
    attributes of the operands nor aligned with the size. *)
Lemma add_of_absent_attributes :
  row_aligned fresh2 ∧ row_aligned fresh1 ∧
  Encoding fresh2 = Encoding fresh1 ∧
  Field_agree (Field fresh2) (Field fresh1) = true ∧
  Chrom fresh2 ≠ None ∧ Chrom fresh1 ≠ None ∧
  CV fresh2 = None ∧ CV fresh1 = None ∧
  ∃ q, __add__ one py_none Field_agree fresh2 fresh1 = Return q ∧
       sizes q = 3%Z ∧
       ObjV q = Some (Matrix 1 [[NoneObj]; [NoneObj]]) ∧
       Phen q = Some (Matrix 1 [[NoneObj]; [NoneObj]]) ∧
       rows_of (ObjV q) ≠ rows_of (ObjV fresh2) ++ rows_of (ObjV fresh1) ∧
       ¬ row_aligned q.
Proof.
  split_and!; try done; try (by repeat constructor).
  eexists. split; [reflexivity|]. split_and!; try done.
  intros (_&H&_)%row_aligned_iff. simpl in H. discriminate H.
Qed.

Lemma add_concatenates_witness :
  ∃ q, __add__ one py_none Field_agree popA popB = Return q ∧
       sizes q = (sizes popA + sizes popB)%Z ∧
       row_aligned q ∧
       rows (FitnV q) = rows (FitnV popA) ++ rows (FitnV popB) ∧
       Forall3 (λ c a b, rows_of c = rows_of a ++ rows_of b ∧
                         (c = None ↔ a = None))
               (attributes q) (attributes popA) (attributes popB).
Proof.
  apply (add_concatenates one py_none Field_agree popA popB); try done.
  - exact popA_row_aligned.
  - exact popB_row_aligned.
  - repeat constructor.
Defined.

(** C4, counterexample.  [plainA] has no encoding; assigning the single
    individual [plain1] to the two rows 0 and 1 completes without an
    error, although the index sequence has length 2 and the source has
    size 1, and both rows are overwritten. *)
Lemma setitem_without_encoding_skips_size_check :
  Z.of_nat (length [0; 1]%Z) ≠ sizes plain1 ∧
  __setitem__ cast_none Field_agree [0; 1]%Z plain1 plainA
  = (mk 3 None None None 0
        (Some (mat 1 [[60]; [60]; [30]]%Z)) (ones 3) None
        (Some (mat 2 [[11; 12]; [11; 12]; [5; 6]]%Z)),
     Return tt).
Proof. split; [done|reflexivity]. Qed.

Lemma setitem_size_mismatch_witness :
  __setitem__ cast_none Field_agree [0; 1]%Z popA popA
  = (popA, Raise (RuntimeError Sizes_disagree)).
Proof.
  apply (setitem_size_mismatch cast_none Field_agree [0; 1]%Z popA popA);
    done.
Defined.

Lemma setitem_frame_witness :
  __setitem__ cast_none Field_agree [2; 0]%Z popB popA
  = (popA_assigned, Return tt) ∧
  Forall2 (λ a' a, row_at a' 1 = row_at a 1)
          (attributes popA_assigned) (attributes popA).
Proof.
  split; [reflexivity|].
  destruct (setitem_frame cast_none Field_agree [2; 0]%Z popB popA
              popA_assigned) as [H _].
  - reflexivity.
  - repeat constructor; lia.
  - apply (H 1). rewrite !not_elem_of_cons. split_and!; [lia|lia|].
    apply not_elem_of_nil.
Defined.

(** C6, counterexample.  A population that is instantiated with an
    encoding and not yet initialized is row-aligned, and [shuffle] raises
    on it. *)
Lemma shuffle_uninitialized_raises :
  row_aligned uninit ∧
  shuffle rng uninit = (uninit, Raise (RuntimeError Chrom_is_None)).
Proof. split; [repeat constructor|reflexivity]. Qed.

Lemma shuffle_permutes_rows_witness :
  ∃ shuff self',
    shuffle rng popA = (self', Return tt) ∧
    shuff ≡ₚ seq 0 (Z.to_nat (sizes popA)) ∧
    sizes self' = sizes popA ∧
    Forall2 (λ a' a, (a' = None ↔ a = None) ∧
                     rows_of a' ≡ₚ rows_of a ∧
                     ∀ i k, shuff !! i = Some k → row_at a' i = row_at a k)
            (attributes self') (attributes popA).
Proof.
  apply (shuffle_permutes_rows rng popA).
  - exact popA_initialized.
  - done.
  - exact popA_row_aligned.
Defined.

(** C7, counterexample.  A population without an encoding and without a
    phenotype is row-aligned and scheme-consistent; its indexed view by the
    valid indices 0 and 1 raises instead of returning a population with an
    absent phenotype. *)
Lemma getitem_absent_phenotype_raises :
  Phen bare = None ∧ row_aligned bare ∧ initialized bare ∧
  __getitem__ one bare [0; 1]%Z = Raise TypeError.
Proof.
  split_and!; [done|repeat constructor| |reflexivity].
  split; [done|]. by intros [].
Qed.

Lemma getitem_presence_witness :
  ∃ q, __getitem__ one popA [1]%Z = Return q ∧
       (ObjV q = None ↔ ObjV popA = None) ∧
       (CV q = None ↔ CV popA = None) ∧
       Phen popA ≠ None ∧ Phen q ≠ None.
Proof.
  destruct (getitem_presence one popA [1]%Z) as (H1&_&H2).
  destruct H2 as [q Hq].
  - exact popA_initialized.
  - done.
  - exact popA_row_aligned.
  - repeat constructor; simpl; lia.
  - exists q. split; [exact Hq|]. exact (H1 q Hq).
Defined.

(** C8, at the failing input.  The constructor called without an encoding
    and with a genotype of two columns stores no genotype and a chromosome
    length of 2. *)
Theorem init_without_encoding_keeps_Lind :
  ∃ q, __init__ one None (Some F) 3 (Some chrom3) None None None None
       = Return q ∧
       Chrom q = None ∧ Lind q = 2.
Proof. eexists. split; [reflexivity|]. by split. Qed.

Lemma decoding_self_decoding_witness :
  decoding bs2ri popA = Return chrom3 ∧
  decoding bs2ri bare = Raise (RuntimeError Encoding_must_be_BG_RI_P).
Proof.
  split.
  - apply (proj1 (decoding_self_decoding bs2ri popA)); [by left|done].
  - apply (proj2 (decoding_self_decoding bs2ri bare)).
    rewrite !not_elem_of_cons. split_and!; [done|done|done|].
    apply not_elem_of_nil.
Defined.

Lemma setitem_without_encoding_witness :
  ∃ s2 s1,
    __setitem__ cast_none Field_agree [2; 0]%Z plain2 plainA
    = (s2, Return tt) ∧
    __setitem__ cast_none Field_agree [0; 1]%Z plain1 plainA
    = (s1, Return tt) ∧
    row_at (ObjV s2) 2 = Some [Num 40] ∧
    row_at (ObjV s2) 0 = Some [Num 50] ∧
    row_at (Some (FitnV s2)) 2 = Some [Num 1] ∧
    row_at (Phen s2) 2 = Some [Num 7; Num 8] ∧
    row_at (Phen s2) 0 = Some [Num 9; Num 10] ∧
    Chrom s2 = None ∧ sizes s2 = 3%Z ∧
    row_at (ObjV s1) 0 = Some [Num 60] ∧
    row_at (ObjV s1) 1 = Some [Num 60] ∧
    row_at (Phen s1) 0 = Some [Num 11; Num 12] ∧
    row_at (Phen s1) 1 = Some [Num 11; Num 12].
Proof.
  exists (__setitem__ cast_none Field_agree [2; 0]%Z plain2 plainA).1,
         (__setitem__ cast_none Field_agree [0; 1]%Z plain1 plainA).1.
  destruct (setitem_without_encoding cast_none Field_agree [2; 0]%Z plain2
              plainA
              (__setitem__ cast_none Field_agree [2; 0]%Z plain2 plainA).1
              (Return tt) eq_refl eq_refl) as [_ H2].
  destruct (H2 eq_refl) as [(o&f&ph&_&_&Hph&_&_&_&Hc&Hs) W2].
  destruct W2 as (Wo&Wf&Wp&_).
  { repeat constructor; lia. }
  destruct (setitem_without_encoding cast_none Field_agree [0; 1]%Z plain1
              plainA
              (__setitem__ cast_none Field_agree [0; 1]%Z plain1 plainA).1
              (Return tt) eq_refl eq_refl) as [_ H1].
  destruct (H1 eq_refl) as [_ W1].
  destruct W1 as (_&_&_&So&_&Sp).
  { repeat constructor; lia. }
  assert (∀ (l : list Z) (i : nat) (z : Z),
            (∀ j, i < j → j < length l → l !! j ≠ Some z) →
            ∀ j, i < j → l !! j ≠ Some z) as Hlater.
  { intros l i z Hl j Hij. destruct (decide (j < length l)) as [Hj|Hj].
    - by apply Hl.
    - rewrite lookup_ge_None_2 by lia. done. }
  split_and!.
  - reflexivity.
  - reflexivity.
  - apply (Wo objv2 objv3 eq_refl eq_refl eq_refl eq_refl 0 2%Z eq_refl).
    apply Hlater. intros [|[|j]] ? ?; simpl in *; [lia|done|lia].
  - apply (Wo objv2 objv3 eq_refl eq_refl eq_refl eq_refl 1 0%Z eq_refl).
    apply Hlater. intros j ? ?; simpl in *; lia.
  - apply (Wf (ones 2) (ones 3) eq_refl eq_refl eq_refl eq_refl 0 2%Z eq_refl).
    apply Hlater. intros [|[|j]] ? ?; simpl in *; [lia|done|lia].
  - apply (Wp chrom2 chrom3 eq_refl eq_refl eq_refl eq_refl 0 2%Z eq_refl).
    apply Hlater. intros [|[|j]] ? ?; simpl in *; [lia|done|lia].
  - apply (Wp chrom2 chrom3 eq_refl eq_refl eq_refl eq_refl 1 0%Z eq_refl).
    apply Hlater. intros j ? ?; simpl in *; lia.
  - exact Hc.
  - injection Hph as <-. exact Hs.
  - apply (So objv1 objv3 [Num 60] eq_refl eq_refl eq_refl eq_refl 0%Z).
    apply elem_of_cons. by left.
  - apply (So objv1 objv3 [Num 60] eq_refl eq_refl eq_refl eq_refl 1%Z).
    apply elem_of_cons. right. apply elem_of_cons. by left.
  - apply (Sp chrom1 chrom3 [Num 11; Num 12] eq_refl eq_refl eq_refl eq_refl
              0%Z).
    apply elem_of_cons. by left.
  - apply (Sp chrom1 chrom3 [Num 11; Num 12] eq_refl eq_refl eq_refl eq_refl
              1%Z).
    apply elem_of_cons. right. apply elem_of_cons. by left.
Defined.

End DemoFacts.

(** ** The further properties on the concrete instance *)

Section DemoExtra.
Import Demo.

Lemma popC_row_aligned : row_aligned popC.
Proof. repeat constructor. Defined.

Lemma popC_initialized : initialized popC.
Proof. split; [done|]. by intros _. Defined.

Lemma getitem_len_witness :
  __getitem__ one popA [2; 0; 2]%Z = Return popA_202 ∧ __len__ popA_202 = 3%Z.
Proof.
  split; [reflexivity|].
  apply (getitem_len one popA [2; 0; 2]%Z popA_202). reflexivity.
Defined.

Lemma getitem_scheme_witness :
  Encoding popA_202 = Encoding popA ∧ scheme_consistent popA_202 ∧
  lind_consistent popA_202.
Proof.
  destruct (getitem_scheme one popA [2; 0; 2]%Z popA_202) as (H1&H2&H3&_).
  - reflexivity.
  - by split_and!.
Defined.

Lemma getitem_out_of_range_witness :
  __getitem__ one popA [0; 3]%Z = Raise IndexError.
Proof.
  apply (getitem_out_of_range one popA [0; 3]%Z).
  - exact popA_row_aligned.
  - done.
  - right. left. simpl. lia.
Defined.

Lemma getitem_empty_witness :
  ∃ q, __getitem__ one popA [] = Return q ∧ sizes q = 0%Z ∧
       Forall2 (λ b a, shape b = (λ m, (0, ncols m)) <$> a)
               (attributes q) (attributes popA).
Proof. apply (getitem_empty one popA); [exact popA_initialized|done]. Defined.

Lemma getitem_signed_index_witness :
  __getitem__ one popA [-1; 0; -3]%Z = __getitem__ one popA [2; 0; 0]%Z.
Proof.
  apply (getitem_signed_index one popA [-1; 0; -3]%Z).
  - exact popA_row_aligned.
  - repeat constructor; simpl; lia.
Defined.

Lemma getitem_compose_witness :
  __getitem__ one popA_202 [1; 1; 0]%Z = __getitem__ one popA [0; 0; 2]%Z.
Proof.
  apply (getitem_compose one popA [2; 0; 2]%Z [1; 1; 0]%Z popA_202).
  - reflexivity.
  - repeat constructor; simpl; lia.
Defined.

Lemma getitem_arange_is_copy_witness :
  __getitem__ one popA [0; 1; 2]%Z = copy one popA.
Proof.
  apply (getitem_arange_is_copy one popA).
  - exact popA_initialized.
  - done.
  - exact popA_row_aligned.
Defined.

Lemma add_len_witness :
  __add__ one py_none Field_agree popA popB = Return popAB ∧
  __len__ popAB = (__len__ popA + __len__ popB)%Z.
Proof.
  split; [reflexivity|].
  apply (add_len one py_none Field_agree popA popB popAB). reflexivity.
Defined.

Lemma add_scheme_witness :
  Encoding popAB = Encoding popA ∧ scheme_consistent popAB ∧
  lind_consistent popAB ∧ (CV popAB = None ↔ CV popA = None) ∧
  is_Some (ObjV popAB) ∧ is_Some (Phen popAB).
Proof.
  apply (add_scheme one py_none Field_agree popA popB popAB). reflexivity.
Defined.

Lemma add_without_encoding_witness :
  ∃ q, __add__ one py_none Field_agree plainA popA = Return q ∧
       Encoding q = None ∧ Field q = None ∧ Chrom q = None ∧ Lind q = 0.
Proof.
  eexists. split; [reflexivity|].
  destruct (add_without_encoding one py_none Field_agree plainA popA)
    as [_ H]; [done|done|].
  apply H. reflexivity.
Defined.

Lemma add_checks_witness :
  __add__ one py_none Field_agree popA plainA
  = Raise (RuntimeError Encoding_disagree) ∧
  __add__ one py_none Field_agree popA uninit
  = Raise (RuntimeError Chrom_is_None).
Proof.
  destruct (add_checks one py_none Field_agree popA plainA) as (H1&_);
    [done|].
  destruct (add_checks one py_none Field_agree popA uninit) as (_&_&H3&_);
    [done|].
  split.
  - by apply H1.
  - apply H3; [done|done|by right].
Defined.

Lemma add_assoc_witness :
  ∃ L R, __add__ one py_none Field_agree popAB popC = Return L ∧
         __add__ one py_none Field_agree popA popBC = Return R ∧
         L = R.
Proof.
  exists popABC, popABC. split_and!; [reflexivity|reflexivity|].
  apply (add_assoc one py_none Field_agree popA popB popC popAB popBC);
    reflexivity || done.
Defined.

Lemma add_then_getitem_witness :
  ∃ qa qb,
    __getitem__ one popAB (arange 0 3) = Return qa ∧
    __getitem__ one popAB (arange 3 2) = Return qb ∧
    sizes qa = sizes popA ∧ attributes qa = attributes popA ∧
    sizes qb = sizes popB ∧ attributes qb = attributes popB.
Proof.
  apply (add_then_getitem one py_none Field_agree popA popB popAB);
    try done.
  - exact popA_row_aligned.
  - exact popB_row_aligned.
Defined.

Lemma setitem_RuntimeError_unchanged_witness :
  __setitem__ cast_none Field_agree [0; 1]%Z popA popA
  = (popA, Raise (RuntimeError Sizes_disagree)) ∧
  Encoding popA ≠ None ∧ popA = popA.
Proof.
  split; [reflexivity|].
  apply (setitem_RuntimeError_unchanged cast_none Field_agree [0; 1]%Z popA
           popA popA Sizes_disagree).
  reflexivity.
Defined.

Lemma setitem_keeps_shapes_witness :
  Encoding popA_assigned = Encoding popA ∧ Field popA_assigned = Field popA ∧
  Lind popA_assigned = Lind popA ∧
  Forall2 (λ a' a, shape a' = shape a)
          (attributes popA_assigned) (attributes popA) ∧
  Some (sizes popA_assigned) = (Z.of_nat ∘ nrows) <$> Phen popA.
Proof.
  apply (setitem_keeps_shapes cast_none Field_agree [2; 0]%Z popB popA
           popA_assigned (Return tt)).
  reflexivity.
Defined.

Lemma setitem_then_getitem_witness :
  ∃ q, __getitem__ one popA_assigned [2; 0]%Z = Return q ∧
       ObjV q = ObjV popB ∧ FitnV q = FitnV popB ∧ Phen q = Phen popB ∧
       (Encoding popA ≠ None → Chrom q = Chrom popB) ∧
       (CV popA ≠ None → CV q = CV popB).
Proof.
  apply (setitem_then_getitem one cast_none Field_agree [2; 0]%Z popB popA
           popA_assigned).
  - reflexivity.
  - done.
  - repeat constructor; rewrite ?elem_of_cons, ?elem_of_nil; intuition lia.
  - repeat constructor; lia.
  - repeat constructor; intros y [= <-] || (intros y; try done);
      eexists; split_and!; try reflexivity.
Defined.

Lemma setitem_idempotent_witness :
  __setitem__ cast_none Field_agree [2; 0]%Z popB popA_assigned
  = (popA_assigned, Return tt).
Proof.
  apply (setitem_idempotent cast_none Field_agree [2; 0]%Z popB popA).
  reflexivity.
Defined.

Lemma initChrom_resets_witness :
  initChrom one crtpc bs2ri (Some 3%Z) uninit = (uninit_init3, Return tt) ∧
  sizes uninit_init3 = 3%Z ∧ lind_consistent uninit_init3 ∧
  ObjV uninit_init3 = None ∧ CV uninit_init3 = None ∧
  Phen uninit_init3 = Chrom uninit_init3.
Proof.
  split; [reflexivity|].
  destruct (initChrom_resets one crtpc bs2ri (Some 3%Z) uninit uninit_init3)
    as (H1&_&_&_&_&_&H2&H3&H4&_&_&H5); [reflexivity|].
  split_and!; [exact H1|exact H2|exact H3|exact H4|by apply H5].
Defined.

Lemma initChrom_unsupported_encoding_witness :
  initChrom one crtpc bs2ri None bare
  = (bare_half_reset, Raise (RuntimeError Encoding_must_be_BG_RI_P)).
Proof.
  destruct (initChrom_unsupported_encoding one crtpc bs2ri None bare)
    as [_ H].
  - rewrite !not_elem_of_cons. split_and!; [done|done|done|].
    apply not_elem_of_nil.
  - apply (H (Matrix 2 [[Num 0; Num 0]; [Num 0; Num 0]])); [done|reflexivity].
Defined.

Lemma initChrom_negative_size_witness :
  (initChrom one crtpc bs2ri (Some (-1)%Z) popA).2 ≠ Return tt ∧
  sizes (initChrom one crtpc bs2ri (Some (-1)%Z) popA).1 = (-1)%Z.
Proof.
  apply (initChrom_negative_size one crtpc bs2ri (-1) popA); [lia|].
  by destruct (initChrom one crtpc bs2ri (Some (-1)%Z) popA).
Defined.

Lemma shuffle_frame_witness :
  sizes (shuffle rng popA).1 = sizes popA ∧
  Encoding (shuffle rng popA).1 = Encoding popA ∧
  Lind (shuffle rng popA).1 = Lind popA.
Proof.
  destruct (shuffle_frame rng popA (shuffle rng popA).1 (shuffle rng popA).2)
    as (H1&H2&_&H4&_).
  - by destruct (shuffle rng popA).
  - by split_and!.
Defined.

Lemma shuffle_at_most_one_witness :
  shuffle rng popC = (popC, Return tt).
Proof.
  apply (shuffle_at_most_one rng popC).
  - exact popC_initialized.
  - done.
  - exact popC_row_aligned.
  - simpl. lia.
Defined.

Lemma in_place_lind_consistent_witness :
  lind_consistent (__setitem__ cast_none Field_agree [2; 0]%Z popB popA).1 ∧
  lind_consistent (shuffle rng popA).1.
Proof.
  destruct (in_place_lind_consistent cast_none Field_agree rng popA)
    as [H1 H2]; [done|done|].
  split.
  - apply (H1 [2; 0]%Z popB _ (Return tt)). reflexivity.
  - apply (H2 _ (shuffle rng popA).2). by destruct (shuffle rng popA).
Defined.

Lemma init_outcome_witness :
  __init__ one (Some "RI") (Some F) (-2) None None None None None
  = Raise (RuntimeError Size_error) ∧
  __init__ one (Some "RI") (@None field) 2 None None None None None
  = Raise AttributeError ∧
  ∃ q, __init__ one (Some "RI") (Some F) 3 (Some chrom3) (Some objv3)
         (Some (ones 3)) None (Some chrom3) = Return q.
Proof.
  split_and!.
  - apply (proj1 (init_outcome one (Some "RI") (Some F) (-2) None None None
                    None None)).
    split; [lia|done].
  - apply (proj1 (proj2 (init_outcome one (Some "RI") (@None field) 2 None None None
                           None None))); [lia|done|done].
  - apply (proj2 (proj2 (init_outcome one (Some "RI") (Some F) 3
                           (Some chrom3) (Some objv3) (Some (ones 3)) None
                           (Some chrom3)))); [by eexists|].
    split; [lia|done].
Defined.

Lemma copy_is_self_witness : copy one popA = Return popA.
Proof. apply (copy_is_self one popA). by split_and!. Defined.

End DemoExtra.
